(** * Calc_Pro: the calculator engine

    A shallow embedding of [CalculatorEngine] (src/Calc_Pro.py): [evaluate],
    [solve_linear], [solve_quadratic] and the angle-mode helpers.

    [evaluate] hands the cleaned text to the interpreter's own [eval], so the
    development carries a model of the part of the Python expression language
    a calculator text can reach: the tokenizer, the expression grammar, and
    the arithmetic of [int], [float] and [complex] as CPython 3.11 defines it.
    Floats are the kernel's binary64 numbers; decimal conversion in both
    directions is computed exactly over [Z].  What the interpreter takes from
    its platform (the C library's transcendental functions, the text of a
    function object, and every piece of syntax outside the modelled fragment)
    is a field of the record [host], and the theorems hold for every host.

    The window around the engine follows: [ThemeManager], [CustomButton] and
    the controller of [CalculatorApp] ([on_button_click], [_calculate_result],
    [_update_display], [toggle_history], [_bind_keys], and the handlers
    [calc_emi] and [solve] of the financial and algebra tabs).  A Python
    [str] is kept as its UTF-8 bytes; a Tk widget is the record of the
    options the code sets on it. *)

From Stdlib Require Import ZArith Floats Lia List Bool Ascii String DecimalString.
From Stdlib Require Import BinaryString HexString.
From stdpp Require Import base gmap strings.
Import ListNotations.

Local Open Scope string_scope.
Local Open Scope Z_scope.

(** ** Text helpers *)

Definition str_of_Z (z : Z) : string := NilZero.string_of_int (Z.to_int z).

Fixpoint zeros (n : nat) : string :=
  match n with
  | O => ""
  | S k => String "0" (zeros k)
  end.

Definition pad_left (width : nat) (s : string) : string :=
  zeros (width - String.length s) ++ s.

Fixpoint str_drop (n : nat) (s : string) : string :=
  match n, s with
  | O, _ => s
  | S k, String _ r => str_drop k r
  | S _, EmptyString => EmptyString
  end.

Fixpoint str_take (n : nat) (s : string) : string :=
  match n, s with
  | S k, String c r => String c (str_take k r)
  | _, _ => EmptyString
  end.

(** [str.replace(old, new)] for a non-empty [old]: every occurrence, left to
    right, without overlap.  [skip] counts the characters of a match that are
    still to be dropped. *)
Fixpoint replace_from (old new : string) (skip : nat) (s : string) : string :=
  match s with
  | EmptyString => EmptyString
  | String c r =>
      match skip with
      | S k => replace_from old new k r
      | O =>
          if String.prefix old s
          then new ++ replace_from old new (String.length old - 1) r
          else String c (replace_from old new O r)
      end
  end.

Definition replace (old new s : string) : string := replace_from old new O s.

(** The display glyphs of the button grid, as the UTF-8 bytes of their code
    points: U+00D7, U+00F7 and U+221A. *)
Definition glyph_times : string := String "195" (String "151" "").
Definition glyph_divide : string := String "195" (String "183" "").
Definition glyph_root : string := String "226" (String "136" (String "154" "")).

(** ** Binary64 numbers and exact decimal conversion *)

Module F64.

Local Open Scope float_scope.

Definition is_nan (x : float) : bool := negb (x =? x).
Definition is_inf (x : float) : bool := (x =? infinity) || (x =? neg_infinity).
Definition is_finite (x : float) : bool := negb (is_nan x) && negb (is_inf x).

(** The sign bit, as [copysign(1.0, x) < 0] reads it (a NaN counts as
    positive: the kernel's floats have one NaN). *)
Definition sign_bit (x : float) : bool :=
  match Prim2SF x with
  | S754_zero s | S754_infinity s | S754_finite s _ _ => s
  | S754_nan => false
  end.

Definition copysign (x y : float) : float :=
  if Bool.eqb (sign_bit x) (sign_bit y) then x else - x.

(** The integer [m * 2^e] rounded to the nearest double, ties to even; an
    infinity when it is out of range. *)
Definition of_scaled (m e : Z) : float :=
  SF2Prim (binary_normalize prec emax m e false).

(** The ratio [n / d] ([0 <= n], [0 < d]) rounded to the nearest double, ties
    to even: a 64-bit quotient whose last bit is sticky, rounded once. *)
Definition of_ratio (neg : bool) (n d : Z) : float :=
  if (n =? 0)%Z then (if neg then -0 else 0)
  else
    let s := (64 - (Z.log2 n - Z.log2 d))%Z in
    let num := if (0 <=? s)%Z then Z.shiftl n s else n in
    let den := if (0 <=? s)%Z then d else Z.shiftl d (- s) in
    let q := (num / den)%Z in
    let m := (2 * q + (if (num mod den =? 0)%Z then 0 else 1))%Z in
    of_scaled (if neg then (- m)%Z else m) (- s - 1).

(** The value of the decimal [digits * 10^exp10]. *)
Definition of_decimal (digits exp10 : Z) : float :=
  if (0 <=? exp10)%Z then of_ratio false (digits * 10 ^ exp10) 1
  else of_ratio false digits (10 ^ (- exp10)).

(** A finite non-zero double as the exact fraction [n / d] of its magnitude. *)
Definition magnitude (x : float) : option (Z * Z) :=
  match Prim2SF x with
  | S754_finite _ m e =>
      if (0 <=? e)%Z then Some (Z.pos m * 2 ^ e, 1)%Z
      else Some (Z.pos m, 2 ^ (- e))%Z
  | _ => None
  end.

(** A finite double whose value is an integer, as that integer. *)
Definition to_Z_exact (x : float) : option Z :=
  match Prim2SF x with
  | S754_zero _ => Some 0%Z
  | S754_finite s m e =>
      let a := if (0 <=? e)%Z then (Z.pos m * 2 ^ e)%Z else (Z.pos m / 2 ^ (- e))%Z in
      if (0 <=? e)%Z || (Z.pos m mod 2 ^ (- e) =? 0)%Z
      then Some (if s then (- a)%Z else a) else None
  | _ => None
  end.

Definition is_integer (x : float) : bool :=
  match to_Z_exact x with Some _ => true | None => false end.

(** [DOUBLE_IS_ODD_INTEGER] of floatobject.c. *)
Definition is_odd_integer (x : float) : bool :=
  match to_Z_exact x with Some z => Z.odd z | None => false end.

End F64.

(** ** Decimal text of a double

    [format(x, ".10g")], [format(x, ".2f")] and the shortest text that reads
    back as [x] (the ['r'] code of [PyOS_double_to_string]), each correctly
    rounded from the exact value. *)

Module Dec.

Import F64.

(** The integer nearest to [n / d], ties to even. *)
Definition div_half_even (n d : Z) : Z :=
  let q := n / d in
  match Z.compare (2 * (n mod d)) d with
  | Lt => q
  | Gt => q + 1
  | Eq => if Z.even q then q else q + 1
  end.

(** [10^k <= n / d]. *)
Definition ge_pow10 (n d k : Z) : bool :=
  if 0 <=? k then d * 10 ^ k <=? n else d <=? n * 10 ^ (- k).

Fixpoint raise (fuel : nat) (n d x : Z) : Z :=
  match fuel with
  | O => x
  | S f => if ge_pow10 n d (x + 1) then raise f n d (x + 1) else x
  end.

(** The decimal exponent of [n / d]: the [x] with [10^x <= n/d < 10^(x+1)].
    The estimate from the bit lengths is at most three below it. *)
Definition exponent10 (n d : Z) : Z :=
  raise 6 n d ((Z.log2 n - Z.log2 d) * 30103 / 100000 - 2).

(** The integer nearest to [(n / d) * 10^k], and its floor. *)
Definition scaled_half_even (n d k : Z) : Z :=
  if 0 <=? k then div_half_even (n * 10 ^ k) d else div_half_even n (d * 10 ^ (- k)).

Definition scaled_floor (n d k : Z) : Z :=
  if 0 <=? k then (n * 10 ^ k) / d else n / (d * 10 ^ (- k)).

(** [n / d] to [p] significant digits: the digits [D] and the exponent [x]
    of the first one. *)
Definition significant (p n d : Z) : Z * Z :=
  let x := exponent10 n d in
  let D := scaled_half_even n d (p - 1 - x) in
  if 10 ^ p <=? D then (D / 10, x + 1) else (D, x).

Fixpoint strip_zeros (fuel : nat) (D : Z) : Z :=
  match fuel with
  | O => D
  | S f => if (D mod 10 =? 0) && negb (D =? 0) then strip_zeros f (D / 10) else D
  end.

Definition exp_text (x : Z) : string :=
  (if x <? 0 then "-" else "+") ++ pad_left 2 (str_of_Z (Z.abs x)).

(** [d.ddde+xx] *)
Definition layout_exp (ds : string) (x : Z) : string :=
  match ds with
  | EmptyString => EmptyString
  | String c EmptyString => String c ("e" ++ exp_text x)
  | String c r => String c ("." ++ r ++ "e" ++ exp_text x)
  end.

(** Positional text of the digits [ds] with the point after [decpt] of them. *)
Definition layout_fixed (ds : string) (decpt : Z) : string :=
  let nd := Z.of_nat (String.length ds) in
  if decpt <=? 0 then "0." ++ zeros (Z.to_nat (- decpt)) ++ ds
  else if nd <=? decpt then ds ++ zeros (Z.to_nat (decpt - nd))
  else str_take (Z.to_nat decpt) ds ++ "." ++ str_drop (Z.to_nat decpt) ds.

Definition sign_text (x : float) : string := if sign_bit x then "-" else "".

(** [format(x, ".<p>g")] for [1 <= p]. *)
Definition format_g (p : Z) (x : float) : string :=
  if is_nan x then "nan"
  else if is_inf x then sign_text x ++ "inf"
  else
    match magnitude x with
    | None => sign_text x ++ "0"
    | Some (n, d) =>
        let '(D, e) := significant p n d in
        let ds := str_of_Z (strip_zeros (Z.to_nat p) D) in
        sign_text x ++ (if (e <? -4) || (p <=? e) then layout_exp ds e else layout_fixed ds (e + 1))
    end.

(** [format(x, ".<k>f")] for [1 <= k]. *)
Definition format_f (k : Z) (x : float) : string :=
  if is_nan x then "nan"
  else if is_inf x then sign_text x ++ "inf"
  else
    match magnitude x with
    | None => sign_text x ++ "0." ++ zeros (Z.to_nat k)
    | Some (n, d) =>
        let D := scaled_half_even n d k in
        sign_text x ++ str_of_Z (D / 10 ^ k) ++ "." ++ pad_left (Z.to_nat k) (str_of_Z (D mod 10 ^ k))
    end.

(** Whether the decimal [D * 10^(-k)] reads back as the magnitude of [x]. *)
Definition round_trips (x : float) (D k : Z) : bool :=
  PrimFloat.eqb (of_decimal D (- k)) (PrimFloat.abs x).

(** The shortest digit string that reads back as [x], and among those of that
    length the one nearest to [x]: [nd] digits are tried, then [nd + 1].
    The result is [(D, k)] for the decimal [D * 10^(-k)]. *)
Fixpoint shortest (fuel : nat) (x : float) (n d e nd : Z) : Z * Z :=
  let k := nd - 1 - e in
  match fuel with
  | O => (scaled_half_even n d k, k)
  | S f =>
      let lo := scaled_floor n d k in
      let near := scaled_half_even n d k in
      if round_trips x near k then (near, k)
      else if round_trips x lo k then (lo, k)
      else if round_trips x (lo + 1) k then (lo + 1, k)
      else shortest f x n d e (nd + 1)
  end.

(** [repr] of a double, without the [.0] that [float.__repr__] appends to an
    integral value: the form [complex.__repr__] prints its parts in. *)
Definition repr (x : float) : string :=
  if is_nan x then "nan"
  else if is_inf x then sign_text x ++ "inf"
  else
    match magnitude x with
    | None => sign_text x ++ "0"
    | Some (n, d) =>
        let '(D, k) := shortest 16 x n d (exponent10 n d) 1 in
        let ds := str_of_Z (strip_zeros 17 D) in
        let e := Z.of_nat (String.length (str_of_Z D)) - 1 - k in
        sign_text x ++ (if (e <? -4) || (16 <=? e) then layout_exp ds e else layout_fixed ds (e + 1))
    end.

End Dec.

(** ** Python objects, exceptions and the host *)

(** The exception classes a calculator text can raise.  [OtherException]
    stands for any other subclass of [Exception]. *)
Inductive exn : Set :=
  | SyntaxError
  | TypeError
  | ValueError
  | ZeroDivisionError
  | OverflowError
  | OtherException.

Inductive AngleMode : Set := DEG | RAD.

(** The functions of the [math] module that the environment binds. *)
Inductive math_fn : Set :=
  | m_sqrt | m_factorial | m_log10 | m_log | m_exp
  | m_sin | m_cos | m_tan | m_asin | m_acos | m_atan.

(** The callables of the environment: a function of [math], the builtin
    [abs], the lambda of [_get_trig_func] and the closure of
    [_get_inv_trig_func] (with the angle mode it reads when called). *)
Inductive callable : Set :=
  | Math (f : math_fn)
  | BuiltinAbs
  | DegreesLambda (f : math_fn)
  | InvTrigClosure (mode : AngleMode) (f : math_fn).

(** [VOther] is any object outside the numeric tower (a tuple, a string, a
    bool, ...), known by the text [str()] gives it. *)
Inductive value : Type :=
  | VInt (n : Z)
  | VFloat (x : float)
  | VComplex (re im : float)
  | VFunc (f : callable)
  | VOther (text : string).

(** What a piece of Python code does: it returns or raises. *)
Inductive outcome (A : Type) : Type :=
  | Returns (a : A)
  | Raises (e : exn).

Arguments Returns {A} a.
Arguments Raises {A} e.

(** A step of the modelled interpreter: a result, an exception, or [Outside]
    when the text leaves the modelled fragment of the language. *)
Inductive res (A : Type) : Type :=
  | Ok (a : A)
  | Raise (e : exn)
  | Outside.

Arguments Ok {A} a.
Arguments Raise {A} e.
Arguments Outside {A}.

Definition bind {A B : Type} (r : res A) (k : A -> res B) : res B :=
  match r with
  | Ok a => k a
  | Raise e => Raise e
  | Outside => Outside
  end.

Notation "'let!' x ':=' r 'in' k" := (bind r (fun x => k))
  (at level 10, x name, r at level 200, k at level 200).
Notation "'let!' ' p ':=' r 'in' k" := (bind r (fun p => k))
  (at level 10, p pattern, r at level 200, k at level 200).

(** What the interpreter takes from the platform it runs on. *)
Record host : Type := {
  (** the C library *)
  libm_pow : float -> float -> float;
  libm_hypot : float -> float -> float;
  libm_atan2 : float -> float -> float;
  libm_exp : float -> float;
  libm_log : float -> float;
  libm_log10 : float -> float;
  libm_sin : float -> float;
  libm_cos : float -> float;
  libm_tan : float -> float;
  libm_asin : float -> float;
  libm_acos : float -> float;
  libm_atan : float -> float;
  (** [str()] of a function object, which prints an address *)
  func_text : callable -> string;
  (** [sys.get_int_max_str_digits()]: the longest decimal text an int may be
      converted to or from, 4300 unless set; [0] is no limit, and no other
      setting is below 640 *)
  int_max_str_digits : Z;
  int_max_str_digits_valid : int_max_str_digits = 0 \/ 640 <= int_max_str_digits;
  (** [eval] on a text outside the modelled fragment, in a given environment *)
  eval_outside : gmap string value -> string -> outcome value
}.

(** Whether an int of [digits] decimal digits is over the conversion limit. *)
Definition over_limit (limit digits : Z) : bool := (0 <? limit) && (limit <? digits).

Definition digits_of (n : Z) : Z := Z.of_nat (String.length (str_of_Z (Z.abs n))).

(** ** Arithmetic of the numeric tower

    The slots of [int], [float] and [complex] (longobject.c, floatobject.c,
    complexobject.c).  A complex number is the pair of its parts. *)

Module Num.

Import F64.
Local Open Scope float_scope.

Definition cpx : Type := float * float.

(** [PyLong_AsDouble] *)
Definition float_of_int (n : Z) : res float :=
  let x := of_scaled n 0 in
  if is_inf x then Raise OverflowError else Ok x.

(** The operand as a double; [Raise TypeError] for an object that is no real
    number. *)
Definition as_double (v : value) : res float :=
  match v with
  | VInt n => float_of_int n
  | VFloat x => Ok x
  | VComplex _ _ | VFunc _ => Raise TypeError
  | VOther _ => Outside
  end.

Definition as_complex (v : value) : res cpx :=
  match v with
  | VInt n => let! x := float_of_int n in Ok (x, 0)
  | VFloat x => Ok (x, 0)
  | VComplex re im => Ok (re, im)
  | VFunc _ => Raise TypeError
  | VOther _ => Outside
  end.

Definition is_complex (v : value) : bool :=
  match v with VComplex _ _ => true | _ => false end.

Definition is_func (v : value) : bool :=
  match v with VFunc _ => true | _ => false end.

Definition is_other (v : value) : bool :=
  match v with VOther _ => true | _ => false end.

(** The dispatch of a binary operator on its operand types: the [int] slot
    for two ints, the [complex] slot when a complex takes part, the [float]
    slot otherwise; [TypeError] when an operand is a function (and when the
    type has no such slot). *)
Definition dispatch
    (on_int : Z -> Z -> res value)
    (on_float : float -> float -> res value)
    (on_complex : option (cpx -> cpx -> res value))
    (a b : value) : res value :=
  if is_other a || is_other b then Outside
  else if is_func a || is_func b then Raise TypeError
  else
    match a, b with
    | VInt x, VInt y => on_int x y
    | _, _ =>
        if is_complex a || is_complex b
        then
          match on_complex with
          | Some f => let! x := as_complex a in let! y := as_complex b in f x y
          | None => Raise TypeError
          end
        else let! x := as_double a in let! y := as_double b in on_float x y
    end.

Definition py_add : value -> value -> res value :=
  dispatch (fun x y => Ok (VInt (x + y)))
           (fun x y => Ok (VFloat (x + y)))
           (Some (fun a b => Ok (VComplex (fst a + fst b) (snd a + snd b)))).

Definition py_sub : value -> value -> res value :=
  dispatch (fun x y => Ok (VInt (x - y)))
           (fun x y => Ok (VFloat (x - y)))
           (Some (fun a b => Ok (VComplex (fst a - fst b) (snd a - snd b)))).

(** [_Py_c_prod] *)
Definition c_prod (a b : cpx) : cpx :=
  (fst a * fst b - snd a * snd b, fst a * snd b + snd a * fst b).

Definition py_mul : value -> value -> res value :=
  dispatch (fun x y => Ok (VInt (x * y)))
           (fun x y => Ok (VFloat (x * y)))
           (Some (fun a b => let c := c_prod a b in Ok (VComplex (fst c) (snd c)))).

(** [long_true_divide]: the correctly rounded quotient. *)
Definition int_true_divide (x y : Z) : res value :=
  if (y =? 0)%Z then Raise ZeroDivisionError
  else
    let q := of_ratio (xorb (x <? 0)%Z (y <? 0)%Z) (Z.abs x) (Z.abs y) in
    if is_inf q then Raise OverflowError else Ok (VFloat q).

(** [_Py_c_quot]; [None] is [errno = EDOM]. *)
Definition c_quot (a b : cpx) : option cpx :=
  let abs_breal := if fst b <? 0 then - fst b else fst b in
  let abs_bimag := if snd b <? 0 then - snd b else snd b in
  if abs_bimag <=? abs_breal then
    if abs_breal =? 0 then None
    else
      let ratio := snd b / fst b in
      let denom := fst b + snd b * ratio in
      Some ((fst a + snd a * ratio) / denom, (snd a - fst a * ratio) / denom)
  else if abs_breal <=? abs_bimag then
    let ratio := fst b / snd b in
    let denom := fst b * ratio + snd b in
    Some ((fst a * ratio + snd a) / denom, (snd a * ratio - fst a) / denom)
  else Some (nan, nan).

Definition py_truediv : value -> value -> res value :=
  dispatch int_true_divide
           (fun x y => if y =? 0 then Raise ZeroDivisionError else Ok (VFloat (x / y)))
           (Some (fun a b =>
                    match c_quot a b with
                    | Some q => Ok (VComplex (fst q) (snd q))
                    | None => Raise ZeroDivisionError
                    end)).

(** C's [floor] and [fmod], both exact. *)
Definition floor (x : float) : float :=
  match Prim2SF x with
  | S754_finite s m e =>
      if (0 <=? e)%Z then x
      else
        let q := (Z.pos m / 2 ^ (- e))%Z in
        let whole := (Z.pos m mod 2 ^ (- e) =? 0)%Z in
        if s then of_scaled (- (if whole then q else q + 1))%Z 0
        else of_scaled q 0
  | _ => x
  end.

Definition fmod (x y : float) : float :=
  match Prim2SF x, Prim2SF y with
  | S754_nan, _ | _, S754_nan | S754_infinity _, _ | _, S754_zero _ => nan
  | S754_zero _, _ | _, S754_infinity _ => x
  | S754_finite sx mx ex, S754_finite _ my ey =>
      let e := Z.min ex ey in
      let r := ((Z.pos mx * 2 ^ (ex - e)) mod (Z.pos my * 2 ^ (ey - e)))%Z in
      if (r =? 0)%Z then (if sx then -0 else 0)
      else of_scaled (if sx then (- r)%Z else r) e
  end.

(** [float_rem] *)
Definition float_rem (vx wx : float) : res value :=
  if wx =? 0 then Raise ZeroDivisionError
  else
    let md := fmod vx wx in
    Ok (VFloat
          (if md =? 0 then copysign 0 wx
           else if negb (Bool.eqb (wx <? 0) (md <? 0)) then md + wx
           else md)).

(** [float_floor_div] *)
Definition float_floor_div (vx wx : float) : res value :=
  if wx =? 0 then Raise ZeroDivisionError
  else
    let md := fmod vx wx in
    let dv := (vx - md) / wx in
    let dv := if negb (md =? 0) && negb (Bool.eqb (wx <? 0) (md <? 0)) then dv - 1 else dv in
    Ok (VFloat
          (if dv =? 0 then copysign 0 (vx / wx)
           else
             let fl := floor dv in
             if 0.5 <? dv - fl then fl + 1 else fl)).

Definition py_floordiv : value -> value -> res value :=
  dispatch (fun x y => if (y =? 0)%Z then Raise ZeroDivisionError else Ok (VInt (x / y)))
           float_floor_div
           None.

Definition py_mod : value -> value -> res value :=
  dispatch (fun x y => if (y =? 0)%Z then Raise ZeroDivisionError else Ok (VInt (x mod y)))
           float_rem
           None.

Section Power.

Variable h : host.

(** [_Py_c_pow]; the flag is [errno = EDOM]. *)
Definition c_pow (a b : cpx) : cpx * bool :=
  if (fst b =? 0) && (snd b =? 0) then ((1, 0), false)
  else if (fst a =? 0) && (snd a =? 0) then ((0, 0), negb (snd b =? 0) || (fst b <? 0))
  else
    let vabs := libm_hypot h (fst a) (snd a) in
    let len := libm_pow h vabs (fst b) in
    let at' := libm_atan2 h (snd a) (fst a) in
    let phase := at' * fst b in
    let len := if snd b =? 0 then len else len / libm_exp h (at' * snd b) in
    let phase := if snd b =? 0 then phase else phase + snd b * libm_log h vabs in
    ((len * libm_cos h phase, len * libm_sin h phase), false).

(** [c_powu]: the bits of [n] from the lowest, [r] the product so far and
    [p] the running square. *)
Fixpoint c_powu (bits : nat) (r p : cpx) (n : Z) : cpx :=
  match bits with
  | O => r
  | S k =>
      if (n =? 0)%Z then r
      else c_powu k (if Z.odd n then c_prod r p else r) (c_prod p p) (n / 2)
  end.

(** [c_powi]; [None] is [errno = EDOM]. *)
Definition c_powi (x : cpx) (n : Z) : option cpx :=
  if (0 <? n)%Z then Some (c_powu 63 (1, 0) x n)
  else c_quot (1, 0) (c_powu 63 (1, 0) x (- n)).

(** [complex_pow] *)
Definition complex_pow (a b : cpx) : res value :=
  let small := (snd b =? 0) && is_integer (fst b) && (abs (fst b) <=? 100) in
  let '(p, edom) :=
    if small then
      match to_Z_exact (fst b) with
      | Some n => match c_powi a n with Some p => (p, false) | None => ((0, 0), true) end
      | None => (c_pow a b)
      end
    else c_pow a b in
  if edom then Raise ZeroDivisionError
  else if is_inf (fst p) || is_inf (snd p) then Raise OverflowError
  else Ok (VComplex (fst p) (snd p)).

(** [float_pow] *)
Definition float_pow (iv iw : float) : res value :=
  if iw =? 0 then Ok (VFloat 1)
  else if is_nan iv then Ok (VFloat iv)
  else if is_nan iw then Ok (VFloat (if iv =? 1 then 1 else iw))
  else if is_inf iw then
    let av := abs iv in
    if av =? 1 then Ok (VFloat 1)
    else if Bool.eqb (0 <? iw) (1 <? av) then Ok (VFloat (abs iw))
    else Ok (VFloat 0)
  else if is_inf iv then
    let odd := is_odd_integer iw in
    if 0 <? iw then Ok (VFloat (if odd then iv else abs iv))
    else Ok (VFloat (if odd then copysign 0 iv else 0))
  else if iv =? 0 then
    if iw <? 0 then Raise ZeroDivisionError
    else Ok (VFloat (if is_odd_integer iw then iv else 0))
  else if (iv <? 0) && negb (is_integer iw) then complex_pow (iv, 0) (iw, 0)
  else
    let negate_result := (iv <? 0) && is_odd_integer iw in
    let iv := if iv <? 0 then - iv else iv in
    if iv =? 1 then Ok (VFloat (if negate_result then -1 else 1))
    else
      let ix := libm_pow h iv iw in
      if is_inf ix then Raise OverflowError
      else Ok (VFloat (if negate_result then - ix else ix)).

(** [long_pow] with no modulus: exact for an exponent that is not negative,
    the float power otherwise. *)
Definition int_pow (x y : Z) : res value :=
  if (0 <=? y)%Z then Ok (VInt (x ^ y))
  else let! a := float_of_int x in let! b := float_of_int y in float_pow a b.

Definition py_pow : value -> value -> res value :=
  dispatch int_pow float_pow (Some complex_pow).

End Power.

Definition py_neg (v : value) : res value :=
  match v with
  | VInt n => Ok (VInt (- n))
  | VFloat x => Ok (VFloat (- x))
  | VComplex re im => Ok (VComplex (- re) (- im))
  | VFunc _ => Raise TypeError
  | VOther _ => Outside
  end.

Definition py_pos (v : value) : res value :=
  match v with
  | VInt _ | VFloat _ | VComplex _ _ => Ok v
  | VFunc _ => Raise TypeError
  | VOther _ => Outside
  end.

End Num.

(** ** The callables of the environment *)

Module Builtins.

Import F64 Num.
Local Open Scope float_scope.

(** [Py_MATH_PI / 180.0] and [180.0 / Py_MATH_PI] of mathmodule.c. *)
Definition degToRad : float := 0x1.1df46a2529d39p-6.
Definition radToDeg : float := 0x1.ca5dc1a63c1f8p+5.

Definition math_pi : float := 0x1.921fb54442d18p+1.
Definition math_e : float := 0x1.5bf0a8b145769p+1.

(** [math_1]: the argument as a double, the C function, and the check of its
    result. *)
Definition math_1 (func : float -> float) (can_overflow : bool) (arg : value) : res value :=
  let! x := as_double arg in
  let r := func x in
  if is_nan r && negb (is_nan x) then Raise ValueError
  else if is_inf r && is_finite x then Raise (if can_overflow then OverflowError else ValueError)
  else Ok (VFloat r).

(** [m_log] and [m_log10]: the C function on the positive numbers, the
    special values otherwise. *)
Definition m_log_of (log : float -> float) (x : float) : float :=
  if is_finite x then
    if 0 <? x then log x
    else if x =? 0 then neg_infinity
    else nan
  else if is_nan x then x
  else if 0 <? x then x
  else nan.

(** [loghelper] with one argument.  An int too large for a double is taken
    apart by [_PyLong_Frexp]: left outside. *)
Definition loghelper (log : float -> float) (arg : value) : res value :=
  match arg with
  | VInt n =>
      if (n <=? 0)%Z then Raise ValueError
      else
        match float_of_int n with
        | Ok x => Ok (VFloat (m_log_of log x))
        | _ => Outside
        end
  | _ => math_1 (m_log_of log) false arg
  end.

Fixpoint factorial_of (n : nat) : Z :=
  match n with
  | O => 1%Z
  | S k => (Z.of_nat n * factorial_of k)%Z
  end.

(** [math.factorial]: an int that is not negative and fits a C long. *)
Definition math_factorial (arg : value) : res value :=
  match arg with
  | VInt n =>
      if (n <? 0)%Z then Raise ValueError
      else if (2 ^ 63 <=? n)%Z then Raise OverflowError
      else Ok (VInt (factorial_of (Z.to_nat n)))
  | VOther _ => Outside
  | _ => Raise TypeError
  end.

(** [_Py_c_abs] and [complex_abs] *)
Definition complex_abs (h : host) (re im : float) : res value :=
  if is_finite re && is_finite im then
    let r := libm_hypot h re im in
    if is_finite r then Ok (VFloat r) else Raise OverflowError
  else if is_inf re then Ok (VFloat (abs re))
  else if is_inf im then Ok (VFloat (abs im))
  else Ok (VFloat nan).

Definition builtin_abs (h : host) (arg : value) : res value :=
  match arg with
  | VInt n => Ok (VInt (Z.abs n))
  | VFloat x => Ok (VFloat (abs x))
  | VComplex re im => complex_abs h re im
  | VFunc _ => Raise TypeError
  | VOther _ => Outside
  end.

Section WithHost.

Variable h : host.

(** [getattr(math, func_name)] applied to one argument. *)
Definition call_math (f : math_fn) (arg : value) : res value :=
  match f with
  | m_sqrt => math_1 sqrt false arg
  | m_factorial => math_factorial arg
  | m_log10 => loghelper (libm_log10 h) arg
  | m_log => loghelper (libm_log h) arg
  | m_exp => math_1 (libm_exp h) true arg
  | m_sin => math_1 (libm_sin h) false arg
  | m_cos => math_1 (libm_cos h) false arg
  | m_tan => math_1 (libm_tan h) false arg
  | m_asin => math_1 (libm_asin h) false arg
  | m_acos => math_1 (libm_acos h) false arg
  | m_atan => math_1 (libm_atan h) false arg
  end.

Definition math_radians (arg : value) : res value :=
  let! x := as_double arg in Ok (VFloat (x * degToRad)).

Definition math_degrees (arg : value) : res value :=
  let! x := as_double arg in Ok (VFloat (x * radToDeg)).

(** A call with one positional argument. *)
Definition call1 (c : callable) (arg : value) : res value :=
  match c with
  | Math f => call_math f arg
  | BuiltinAbs => builtin_abs h arg
  | DegreesLambda f =>
      (* lambda x: getattr(math, func_name)(math.radians(x)) *)
      let! r := math_radians arg in call_math f r
  | InvTrigClosure mode f =>
      (* val = getattr(math, func_name)(x)
         return math.degrees(val) if self.angle_mode == "DEG" else val *)
      let! val := call_math f arg in
      match mode with
      | DEG => math_degrees val
      | RAD => Ok val
      end
  end.

(** The call [f(args)].  Every callable of the environment takes one
    argument, but [math.log], which also takes a base: left outside. *)
Definition call (f : value) (args : list value) : res value :=
  match f with
  | VFunc c =>
      match args with
      | [a] => call1 c a
      | [_; _] => match c with Math m_log => Outside | _ => Raise TypeError end
      | _ => Raise TypeError
      end
  | VOther _ => Outside
  | VInt _ | VFloat _ | VComplex _ _ => Raise TypeError
  end.

End WithHost.

End Builtins.

(** ** The tokenizer

    The tokens of the fragment: decimal integers and point floats, names,
    the arithmetic operators, parentheses and the comma; blanks separate
    tokens.  Anything else (an exponent or a suffix on a number, an
    underscore, a keyword, an attribute dot, a quote, a newline, ...) is
    [Outside]. *)

Inductive token : Type :=
  | TInt (n : Z)
  | TFloat (x : float)
  | TName (id : string)
  | TPlus | TMinus | TStar | TDoubleStar | TSlash | TDoubleSlash | TPercent
  | TLPar | TRPar | TComma.

Module Lexer.

Definition code (c : ascii) : N := N_of_ascii c.

Definition is_digit (c : ascii) : bool := ((48 <=? code c) && (code c <=? 57))%N.

Definition digit_value (c : ascii) : Z := Z.of_N (code c) - 48.

Definition is_letter (c : ascii) : bool :=
  (((65 <=? code c) && (code c <=? 90)) || ((97 <=? code c) && (code c <=? 122)))%N.

Definition is_blank (c : ascii) : bool := ((code c =? 32) || (code c =? 9))%N.

(** The reserved words of Python 3.11. *)
Definition keywords : list string :=
  [ "False"; "None"; "True"; "and"; "as"; "assert"; "async"; "await";
    "break"; "class"; "continue"; "def"; "del"; "elif"; "else"; "except";
    "finally"; "for"; "from"; "global"; "if"; "import"; "in"; "is";
    "lambda"; "nonlocal"; "not"; "or"; "pass"; "raise"; "return"; "try";
    "while"; "with"; "yield" ].

Definition is_keyword (s : string) : bool := existsb (String.eqb s) keywords.

(** The token under construction: nothing; an integer (whether its first
    digit is a zero, and its value so far); a float (all digits so far, and
    how many follow the point); a lone point; a name; one [*]; one [/]. *)
Inductive state : Type :=
  | Idle
  | InInt (lead0 : bool) (acc : Z)
  | InFrac (acc : Z) (places : Z)
  | Dot
  | InName (text : string)
  | Star
  | Slash.

(** The token a state stands for when the text moves on.  A decimal integer
    is a run of zeros or starts with a non-zero digit.  (The conversion limit
    of the host does not bear on a literal: the texts of the fragment are
    shorter than its least setting.) *)
Definition flush (st : state) : res (list token) :=
  match st with
  | Idle => Ok []
  | InInt lead0 acc =>
      if lead0 && negb (acc =? 0) then Raise SyntaxError else Ok [TInt acc]
  | InFrac acc places => Ok [TFloat (F64.of_decimal acc (- places))]
  | Dot => Outside
  | InName text => if is_keyword text then Outside else Ok [TName text]
  | Star => Ok [TStar]
  | Slash => Ok [TSlash]
  end.

(** The token of a one-character operator. *)
Definition punct (c : ascii) : option token :=
  match code c with
  | 43%N => Some TPlus
  | 45%N => Some TMinus
  | 37%N => Some TPercent
  | 40%N => Some TLPar
  | 41%N => Some TRPar
  | 44%N => Some TComma
  | _ => None
  end.

(** One character: the tokens it completes and the state it leaves. *)
Definition step (st : state) (c : ascii) : res (list token * state) :=
  if is_digit c then
    let d := digit_value c in
    match st with
    | InInt lead0 acc => Ok ([], InInt lead0 (10 * acc + d))
    | InFrac acc places => Ok ([], InFrac (10 * acc + d) (places + 1))
    | Dot => Ok ([], InFrac d 1)
    | InName text => Ok ([], InName (text ++ String c ""))
    | Idle | Star | Slash => let! out := flush st in Ok (out, InInt (d =? 0) d)
    end
  else if (code c =? 46)%N then
    match st with
    | InInt _ acc => Ok ([], InFrac acc 0)
    | InFrac _ _ | Idle | Star | Slash => let! out := flush st in Ok (out, Dot)
    | Dot | InName _ => Outside
    end
  else if is_letter c then
    match st with
    | InName text => Ok ([], InName (text ++ String c ""))
    | Idle | Star | Slash => let! out := flush st in Ok (out, InName (String c ""))
    | InInt _ _ | InFrac _ _ | Dot => Outside
    end
  else if is_blank c then
    let! out := flush st in Ok (out, Idle)
  else if (code c =? 42)%N then
    match st with
    | Star => Ok ([TDoubleStar], Idle)
    | _ => let! out := flush st in Ok (out, Star)
    end
  else if (code c =? 47)%N then
    match st with
    | Slash => Ok ([TDoubleSlash], Idle)
    | _ => let! out := flush st in Ok (out, Slash)
    end
  else
    match punct c with
    | Some t => let! out := flush st in Ok ((out ++ [t])%list, Idle)
    | None => Outside
    end.

Fixpoint run (st : state) (s : string) : res (list token) :=
  match s with
  | EmptyString => flush st
  | String c r =>
      let! '(out, st') := step st c in
      let! rest := run st' r in
      Ok (out ++ rest)%list
  end.

Definition tokenize (s : string) : res (list token) := run Idle s.

(** [$] and [?] belong to no token: the tokenizer raises [SyntaxError] on
    meeting one outside a string literal and a comment, whatever the rest of
    the text holds (the text is compiled whole before any of it runs).  The
    scan stops at a quote, a [#] or a NUL, which may hide what follows. *)
Fixpoint rejects (s : string) : bool :=
  match s with
  | EmptyString => false
  | String c r =>
      match code c with
      | 36%N | 63%N => true
      | 0%N | 34%N | 35%N | 39%N => false
      | _ => rejects r
      end
  end.

End Lexer.

(** ** The expression grammar

    The productions of the Python grammar that the tokens above can reach:

      sum     := term (('+' | '-') term)*
      term    := factor (('*' | '/' | '//' | '%') factor)*
      factor  := ('+' | '-') factor | power
      power   := primary ['**' factor]
      primary := atom ('(' [sum (',' sum)* [',']] ')')*
      atom    := NUMBER | NAME | '(' sum ')'

    Tuples and starred arguments are [Outside]. *)

Inductive unaryop : Set := UAdd | USub.

Inductive operator : Set := Add | Sub | Mult | Div | FloorDiv | Mod | Pow.

Inductive expr : Type :=
  | Constant (v : value)
  | Name (id : string)
  | UnaryOp (op : unaryop) (operand : expr)
  | BinOp (left : expr) (op : operator) (right : expr)
  | Call (func : expr) (args : list expr).

Module Parser.

Definition parsed (A : Type) : Type := res (A * list token).

Fixpoint parse_sum (fuel : nat) (ts : list token) {struct fuel} : parsed expr :=
  match fuel with
  | O => Outside
  | S f => let! '(l, r) := parse_term f ts in sum_rest f l r
  end

with sum_rest (fuel : nat) (acc : expr) (ts : list token) {struct fuel} : parsed expr :=
  match fuel with
  | O => Outside
  | S f =>
      match ts with
      | TPlus :: r => let! '(t, r') := parse_term f r in sum_rest f (BinOp acc Add t) r'
      | TMinus :: r => let! '(t, r') := parse_term f r in sum_rest f (BinOp acc Sub t) r'
      | _ => Ok (acc, ts)
      end
  end

with parse_term (fuel : nat) (ts : list token) {struct fuel} : parsed expr :=
  match fuel with
  | O => Outside
  | S f => let! '(l, r) := parse_factor f ts in term_rest f l r
  end

with term_rest (fuel : nat) (acc : expr) (ts : list token) {struct fuel} : parsed expr :=
  match fuel with
  | O => Outside
  | S f =>
      match ts with
      | TStar :: r => let! '(t, r') := parse_factor f r in term_rest f (BinOp acc Mult t) r'
      | TSlash :: r => let! '(t, r') := parse_factor f r in term_rest f (BinOp acc Div t) r'
      | TDoubleSlash :: r =>
          let! '(t, r') := parse_factor f r in term_rest f (BinOp acc FloorDiv t) r'
      | TPercent :: r => let! '(t, r') := parse_factor f r in term_rest f (BinOp acc Mod t) r'
      | _ => Ok (acc, ts)
      end
  end

with parse_factor (fuel : nat) (ts : list token) {struct fuel} : parsed expr :=
  match fuel with
  | O => Outside
  | S f =>
      match ts with
      | TPlus :: r => let! '(e, r') := parse_factor f r in Ok (UnaryOp UAdd e, r')
      | TMinus :: r => let! '(e, r') := parse_factor f r in Ok (UnaryOp USub e, r')
      | _ => parse_power f ts
      end
  end

with parse_power (fuel : nat) (ts : list token) {struct fuel} : parsed expr :=
  match fuel with
  | O => Outside
  | S f =>
      let! '(b, r) := parse_primary f ts in
      match r with
      | TDoubleStar :: r' => let! '(e, r'') := parse_factor f r' in Ok (BinOp b Pow e, r'')
      | _ => Ok (b, r)
      end
  end

with parse_primary (fuel : nat) (ts : list token) {struct fuel} : parsed expr :=
  match fuel with
  | O => Outside
  | S f => let! '(a, r) := parse_atom f ts in trailers f a r
  end

with parse_atom (fuel : nat) (ts : list token) {struct fuel} : parsed expr :=
  match fuel with
  | O => Outside
  | S f =>
      match ts with
      | TInt n :: r => Ok (Constant (VInt n), r)
      | TFloat x :: r => Ok (Constant (VFloat x), r)
      | TName id :: r => Ok (Name id, r)
      | TLPar :: TRPar :: _ => Outside
      | TLPar :: r =>
          let! '(e, r') := parse_sum f r in
          match r' with
          | TRPar :: r'' => Ok (e, r'')
          | TComma :: _ => Outside
          | _ => Raise SyntaxError
          end
      | TStar :: _ | TDoubleStar :: _ => Outside
      | _ => Raise SyntaxError
      end
  end

with trailers (fuel : nat) (acc : expr) (ts : list token) {struct fuel} : parsed expr :=
  match fuel with
  | O => Outside
  | S f =>
      match ts with
      | TLPar :: r => let! '(args, r') := parse_args f r in trailers f (Call acc args) r'
      | _ => Ok (acc, ts)
      end
  end

with parse_args (fuel : nat) (ts : list token) {struct fuel} : parsed (list expr) :=
  match fuel with
  | O => Outside
  | S f =>
      match ts with
      | TRPar :: r => Ok ([], r)
      | _ =>
          let! '(e, r) := parse_sum f ts in
          match r with
          | TRPar :: r' => Ok ([e], r')
          | TComma :: r' => let! '(es, r'') := parse_args f r' in Ok (e :: es, r'')
          | _ => Raise SyntaxError
          end
      end
  end.

(** Every call spends one unit of fuel and the calls between two tokens are
    fewer than eight; sixteen per token leaves room to spare. *)
Definition fuel_for (ts : list token) : nat := 16 * List.length ts + 16.

(** [eval_input]: one expression, then the end of the text. *)
Definition parse (ts : list token) : res expr :=
  let! '(e, r) := parse_sum (fuel_for ts) ts in
  match r with
  | [] => Ok e
  | TComma :: _ => Outside
  | _ => Raise SyntaxError
  end.

End Parser.

(** ** Evaluation *)

Module Interp.

Import Num Builtins.

Section WithEnv.

Variable h : host.
Variable env : gmap string value.

Definition unary (op : unaryop) (v : value) : res value :=
  match op with
  | UAdd => py_pos v
  | USub => py_neg v
  end.

Definition binary (op : operator) (a b : value) : res value :=
  match op with
  | Add => py_add a b
  | Sub => py_sub a b
  | Mult => py_mul a b
  | Div => py_truediv a b
  | FloorDiv => py_floordiv a b
  | Mod => py_mod a b
  | Pow => py_pow h a b
  end.

(** A name is looked up in the environment.  The globals hold nothing but
    [__builtins__ = None], so a name the environment lacks ends in a failed
    subscript of [None]: CPython 3.11 raises [TypeError] there. *)
Definition lookup_name (id : string) : res value :=
  match env !! id with
  | Some v => Ok v
  | None => Raise TypeError
  end.

(** Operands left to right, the callee before its arguments. *)
Fixpoint eval_expr (e : expr) : res value :=
  match e with
  | Constant v => Ok v
  | Name id => lookup_name id
  | UnaryOp op operand => let! v := eval_expr operand in unary op v
  | BinOp l op r => let! a := eval_expr l in let! b := eval_expr r in binary op a b
  | Call func args =>
      let! f := eval_expr func in
      let! vs :=
        (fix eval_args (es : list expr) : res (list value) :=
           match es with
           | [] => Ok []
           | e' :: es' =>
               let! v := eval_expr e' in
               let! vs := eval_args es' in
               Ok (v :: vs)
           end) args in
      call h f vs
  end.

(** The modelled part of [eval(source, {"__builtins__": None}, env)].  A
    text of more than [max_source] characters is left to the host: the
    interpreter's limits on nesting (200 parentheses) and on recursion can
    stop the compilation of a long text, and of no shorter one. *)
Definition max_source : nat := 400.

Definition eval_fragment (source : string) : res value :=
  if (max_source <? String.length source)%nat then Outside
  else if Lexer.rejects source then Raise SyntaxError
  else
    let! ts := Lexer.tokenize source in
    let! e := Parser.parse ts in
    eval_expr e.

Definition py_eval (source : string) : outcome value :=
  match eval_fragment source with
  | Ok v => Returns v
  | Raise e => Raises e
  | Outside => eval_outside h env source
  end.

End WithEnv.

End Interp.

(** ** Texts of objects *)

Module Text.

Import F64.

Fixpoint has_point_or_exponent (s : string) : bool :=
  match s with
  | EmptyString => false
  | String c r => (Ascii.eqb c "." || Ascii.eqb c "e" || has_point_or_exponent r)%bool
  end.

(** [float.__repr__]: the shortest text, with [.0] after a bare integer. *)
Definition float_repr (x : float) : string :=
  let r := Dec.repr x in
  if is_finite x && negb (has_point_or_exponent r) then r ++ ".0" else r.

(** [complex.__repr__]: the imaginary part alone when the real part is a
    positive zero, both parts in parentheses otherwise. *)
Definition complex_repr (re im : float) : string :=
  if PrimFloat.eqb re 0 && negb (sign_bit re) then Dec.repr im ++ "j"
  else
    "(" ++ Dec.repr re ++ (if sign_bit im then "" else "+") ++ Dec.repr im ++ "j)".

(** [str(v)]; the text of an int over the conversion limit is refused. *)
Definition py_str (h : host) (v : value) : outcome string :=
  match v with
  | VInt n =>
      if over_limit (int_max_str_digits h) (digits_of n) then Raises ValueError
      else Returns (str_of_Z n)
  | VFloat x => Returns (float_repr x)
  | VComplex re im => Returns (complex_repr re im)
  | VFunc f => Returns (func_text h f)
  | VOther text => Returns text
  end.

(** [format(v, ".2f")] of a number.  An int is converted to a double first. *)
Definition format_2f (v : value) : res string :=
  match v with
  | VInt n => let! x := Num.float_of_int n in Ok (Dec.format_f 2 x)
  | VFloat x => Ok (Dec.format_f 2 x)
  | VComplex re im =>
      Ok (Dec.format_f 2 re ++ (if sign_bit im then "" else "+") ++ Dec.format_f 2 im ++ "j")
  | VFunc _ => Raise TypeError
  | VOther _ => Outside
  end.

End Text.

(** ** CalculatorEngine *)

Import Num Builtins Interp Text.

(** [_get_trig_func]: in degree mode a lambda that converts its argument,
    otherwise the function of [math] itself. *)
Definition _get_trig_func (angle_mode : AngleMode) (func_name : math_fn) : callable :=
  match angle_mode with
  | DEG => DegreesLambda func_name
  | RAD => Math func_name
  end.

(** [_get_inv_trig_func]: a closure that converts its result in degree
    mode. *)
Definition _get_inv_trig_func (angle_mode : AngleMode) (func_name : math_fn) : callable :=
  InvTrigClosure angle_mode func_name.

(** The dictionary [env] that [evaluate] builds. *)
Definition environment (angle_mode : AngleMode) : gmap string value :=
  list_to_map
    [ ("sqrt", VFunc (Math m_sqrt)); ("abs", VFunc BuiltinAbs);
      ("fact", VFunc (Math m_factorial));
      ("log", VFunc (Math m_log10)); ("ln", VFunc (Math m_log));
      ("exp", VFunc (Math m_exp));
      ("sin", VFunc (_get_trig_func angle_mode m_sin));
      ("cos", VFunc (_get_trig_func angle_mode m_cos));
      ("tan", VFunc (_get_trig_func angle_mode m_tan));
      ("asin", VFunc (_get_inv_trig_func angle_mode m_asin));
      ("acos", VFunc (_get_inv_trig_func angle_mode m_acos));
      ("atan", VFunc (_get_inv_trig_func angle_mode m_atan));
      ("pi", VFloat math_pi); ("e", VFloat math_e) ].

(** [expression.replace('×', '*').replace('÷', '/').replace('^', '**')
    .replace('√', 'sqrt')] *)
Definition clean_expr (expression : string) : string :=
  replace glyph_root "sqrt"
    (replace "^" "**" (replace glyph_divide "/" (replace glyph_times "*" expression))).

(** The literal [1e-10]. *)
Definition tiny : float := 0x1.b7cdfd9d7bdbbp-34.

(** The lines that turn the result into text:

      if isinstance(result, (float, decimal.Decimal)):
          if abs(result) < 1e-10: result = 0
          return f"{result:.10g}"
      return str(result)

    No object of the numeric tower is a [Decimal].  The int [0] is formatted
    as the double it converts to. *)
Definition present (h : host) (result : value) : outcome string :=
  match result with
  | VFloat x =>
      if PrimFloat.ltb (PrimFloat.abs x) tiny
      then Returns (Dec.format_g 10 (F64.of_scaled 0 0))
      else Returns (Dec.format_g 10 x)
  | _ => py_str h result
  end.

(** The body of the [try]: [eval], then the text of its result. *)
Definition attempt (h : host) (angle_mode : AngleMode) (clean : string) : outcome string :=
  match py_eval h (environment angle_mode) clean with
  | Returns result => present h result
  | Raises e => Raises e
  end.

(** The [except] clauses. *)
Definition handle (o : outcome string) : string :=
  match o with
  | Returns text => text
  | Raises ZeroDivisionError => "Error: Div by 0"
  | Raises _ => "Error"
  end.

Definition evaluate (h : host) (angle_mode : AngleMode) (expression : string) : string :=
  match expression with
  | EmptyString => ""
  | _ => handle (attempt h angle_mode (clean_expr expression))
  end.

(** *** The equation solvers *)

Module Solver.

Import F64.
Local Open Scope float_scope.

(** [v == 0] and [v < 0] *)
Definition eq_zero (v : value) : res bool :=
  match v with
  | VInt n => Ok (n =? 0)%Z
  | VFloat x => Ok (x =? 0)
  | VComplex re im => Ok ((re =? 0) && (im =? 0))
  | VFunc _ => Ok false
  | VOther _ => Outside
  end.

Definition lt_zero (v : value) : res bool :=
  match v with
  | VInt n => Ok (n <? 0)%Z
  | VFloat x => Ok (x <? 0)
  | VComplex _ _ | VFunc _ => Raise TypeError
  | VOther _ => Outside
  end.

(** [DBL_MIN] *)
Definition dbl_min : float := 0x1p-1022.

(** [cmath_sqrt_impl] on a finite argument, and on the one row of its table
    of special values that a negative real can reach: [sqrt(-inf + yj)] is
    [0 + infj]. *)
Definition cmath_sqrt (h : host) (z : cpx) : res cpx :=
  let '(re, im) := z in
  if is_finite re && is_finite im then
    if (re =? 0) && (im =? 0) then Ok (0, im)
    else
      let ax := abs re in
      let ay := abs im in
      let s :=
        if (ax <? dbl_min) && (ay <? dbl_min)
        then
          let ax' := Z.ldexp ax 53%Z in
          Z.ldexp (sqrt (ax' + libm_hypot h ax' (Z.ldexp ay 53%Z))) (-27)%Z
        else
          let ax' := ax / 8 in
          2 * sqrt (ax' + libm_hypot h ax' (ay / 8)) in
      let d := ay / (2 * s) in
      if 0 <=? re then Ok (s, copysign d im) else Ok (d, copysign s im)
  else if (re =? neg_infinity) && is_finite im then Ok (0, copysign infinity im)
  else Outside.

Section WithHost.

Variable h : host.

(** [solve_linear]: [a x + b = 0]. *)
Definition solve_linear (a b : value) : res value :=
  let! a_is_zero := eq_zero a in
  if a_is_zero then Ok (VOther "No Solution")
  else let! minus_b := py_neg b in py_truediv minus_b a.

(** [-b / (2*a)] *)
Definition half_ratio (a b : value) : res value :=
  let! minus_b := py_neg b in
  let! two_a := py_mul (VInt 2) a in
  py_truediv minus_b two_a.

(** [(-b + root) / (2*a)] and [(-b - root) / (2*a)] *)
Definition real_root (plus : bool) (a b root : value) : res value :=
  let! minus_b := py_neg b in
  let! top := (if plus then py_add else py_sub) minus_b root in
  let! two_a := py_mul (VInt 2) a in
  py_truediv top two_a.

(** [-b/(2*a) + val/(2*a)] and [-b/(2*a) - val/(2*a)] *)
Definition complex_root (plus : bool) (a b val : value) : res value :=
  let! p := half_ratio a b in
  let! two_a := py_mul (VInt 2) a in
  let! q := py_truediv val two_a in
  (if plus then py_add else py_sub) p q.

(** [(b**2) - (4*a*c)] *)
Definition discriminant (a b c : value) : res value :=
  let! b2 := py_pow h b (VInt 2) in
  let! four_a := py_mul (VInt 4) a in
  let! four_ac := py_mul four_a c in
  py_sub b2 four_ac.

(** [solve_quadratic]: [a x^2 + b x + c = 0]. *)
Definition solve_quadratic (a b c : value) : res string :=
  let! d := discriminant a b c in
  let! negative := lt_zero d in
  if negative then
    let! z := as_complex d in
    let! w := cmath_sqrt h z in
    let val := VComplex (fst w) (snd w) in
    let! r1 := complex_root true a b val in
    let! t1 := format_2f r1 in
    let! r2 := complex_root false a b val in
    let! t2 := format_2f r2 in
    Ok (t1 ++ ", " ++ t2)%string
  else
    let! root1 := math_1 sqrt false d in
    let! x1 := real_root true a b root1 in
    let! root2 := math_1 sqrt false d in
    let! x2 := real_root false a b root2 in
    let! t1 := format_2f x1 in
    let! t2 := format_2f x2 in
    Ok (t1 ++ ", " ++ t2)%string.

End WithHost.

End Solver.

(** ** A host to run examples on

    A small C library: each function is computed exactly and rounded once
    where that takes a few lines (a power with a small integer exponent or
    the exponent one half, the sine and cosine of a small argument by their
    Taylor polynomial, [hypot] and [atan2] on an axis), and is a NaN
    elsewhere.  Text outside the fragment is a syntax error on it. *)

Module Sample.

Import F64.
Local Open Scope float_scope.

Definition pow (x y : float) : float :=
  if y =? 0.5 then sqrt x
  else
    match Prim2SF x, to_Z_exact y with
    | S754_finite false m e, Some n =>
        if (Z.abs n <=? 64)%Z then
          if (0 <=? n)%Z then of_scaled (Z.pos m ^ n) (e * n)
          else if (0 <=? e)%Z then of_ratio false 1 (Z.pos m ^ (- n) * 2 ^ (e * - n))
          else of_ratio false (2 ^ (- e * - n)) (Z.pos m ^ (- n))
        else nan
    | _, _ => nan
    end.

Definition hypot (x y : float) : float :=
  if y =? 0 then abs x else if x =? 0 then abs y else nan.

Definition atan2 (y x : float) : float :=
  if y =? 0 then
    if x <? 0 then copysign Builtins.math_pi y
    else if 0 <? x then copysign 0 y
    else nan
  else nan.

(** The partial sums [A / D] of an alternating Taylor series whose terms
    [N / D] follow from one another by the factor [- x^2 / ((i+1) (i+2))],
    for [x^2 = p2 / q2]. *)
Fixpoint series (steps : nat) (i p2 q2 A N D : Z) : Z * Z :=
  match steps with
  | O => (A, D)
  | S k =>
      let f := (q2 * (i + 1) * (i + 2))%Z in
      let N' := (- N * p2)%Z in
      series k (i + 2) p2 q2 (A * f + N') N' (D * f)
  end.

Definition taylor (cosine : bool) (x : float) : float :=
  match Prim2SF x with
  | S754_finite s m e =>
      if abs x <=? 8 then
        let p := ((if s then -1 else 1) * Z.pos m * 2 ^ Z.max 0 e)%Z in
        let q := (2 ^ Z.max 0 (- e))%Z in
        let '(A, D) :=
          if cosine then series 40 0 (p * p) (q * q) 1 1 1
          else series 40 1 (p * p) (q * q) p p q in
        of_ratio (A <? 0)%Z (Z.abs A) D
      else nan
  | S754_zero _ => if cosine then 1 else x
  | _ => nan
  end.

Definition host : host := {|
  libm_pow := pow;
  libm_hypot := hypot;
  libm_atan2 := atan2;
  libm_exp := fun _ => nan;
  libm_log := fun _ => nan;
  libm_log10 := fun _ => nan;
  libm_sin := taylor false;
  libm_cos := taylor true;
  libm_tan := fun _ => nan;
  libm_asin := fun _ => nan;
  libm_acos := fun _ => nan;
  libm_atan := fun _ => nan;
  func_text := fun _ => "<function>";
  int_max_str_digits := 4300;
  int_max_str_digits_valid := ltac:(right; lia);
  eval_outside := fun _ _ => Raises SyntaxError
|}.

End Sample.

(** * Definitions for the statements *)

(** ** The grammar of the specification

    Modelled on the words of the specification (sections 4.1 and 4.2), for
    the arithmetic part of the language: numbers, the operators [+ - * / ^],
    unary minus and parentheses.

      primary := NUMBER | '(' expr ')' | '-' unary
      power   := primary ('^' unary)*          -- right-associative
      unary   := '-' unary | power
      term    := unary (('*' | '/') unary)*    -- left-associative
      expr    := term (('+' | '-') term)*      -- left-associative *)

Module Spec.

(** A number is one or more digits with at most one decimal point: the
    digits before the point, those after it, and whether it has a point. *)
Inductive token : Type :=
  | Number (whole frac : string) (point : bool)
  | Plus | Minus | Times | Divide | Power | LParen | RParen.

Inductive state : Type :=
  | Idle
  | Whole (whole : string)
  | Fraction (whole frac : string).

Definition flush (st : state) : option (list token) :=
  match st with
  | Idle => Some []
  | Whole w => Some [Number w "" false]
  | Fraction "" "" => None
  | Fraction w f => Some [Number w f true]
  end.

Definition operator_token (c : ascii) : option token :=
  let n := Lexer.code c in
  if (n =? 43)%N then Some Plus
  else if (n =? 45)%N then Some Minus
  else if (n =? 42)%N then Some Times
  else if (n =? 47)%N then Some Divide
  else if (n =? 94)%N then Some Power
  else if (n =? 40)%N then Some LParen
  else if (n =? 41)%N then Some RParen
  else None.

Definition step (st : state) (c : ascii) : option (list token * state) :=
  if Lexer.is_digit c then
    match st with
    | Idle => Some ([], Whole (String c ""))
    | Whole w => Some ([], Whole (w ++ String c ""))
    | Fraction w f => Some ([], Fraction w (f ++ String c ""))
    end
  else if (Lexer.code c =? 46)%N then
    match st with
    | Idle => Some ([], Fraction "" "")
    | Whole w => Some ([], Fraction w "")
    | Fraction _ _ =>
        match flush st with
        | Some out => Some (out, Fraction "" "")
        | None => None
        end
    end
  else
    match operator_token c, flush st with
    | Some t, Some out => Some ((out ++ [t])%list, Idle)
    | _, _ => None
    end.

Fixpoint run (st : state) (s : string) : option (list token) :=
  match s with
  | EmptyString => flush st
  | String c r =>
      match step st c with
      | Some (out, st') =>
          match run st' r with
          | Some rest => Some (out ++ rest)%list
          | None => None
          end
      | None => None
      end
  end.

Definition tokenize (s : string) : option (list token) := run Idle s.

(** The syntax tree. *)
Inductive binary_operator : Set := OpAdd | OpSub | OpMul | OpDiv | OpPow.

Inductive ast : Type :=
  | NumberLiteral (whole frac : string) (point : bool)
  | Negate (operand : ast)
  | BinaryOp (op : binary_operator) (left right : ast).

(** A parse: the tree and the tokens left, a syntax error, or no fuel. *)
Inductive parsed : Type :=
  | Parsed (t : ast) (rest : list token)
  | NoParse
  | NoFuel.

Definition and_then (p : parsed) (k : ast -> list token -> parsed) : parsed :=
  match p with
  | Parsed t rest => k t rest
  | NoParse => NoParse
  | NoFuel => NoFuel
  end.

Fixpoint parse_expr (fuel : nat) (ts : list token) {struct fuel} : parsed :=
  match fuel with
  | O => NoFuel
  | S f => and_then (parse_term f ts) (expr_rest f)
  end

with expr_rest (fuel : nat) (acc : ast) (ts : list token) {struct fuel} : parsed :=
  match fuel with
  | O => NoFuel
  | S f =>
      match ts with
      | Plus :: r => and_then (parse_term f r) (fun t => expr_rest f (BinaryOp OpAdd acc t))
      | Minus :: r => and_then (parse_term f r) (fun t => expr_rest f (BinaryOp OpSub acc t))
      | _ => Parsed acc ts
      end
  end

with parse_term (fuel : nat) (ts : list token) {struct fuel} : parsed :=
  match fuel with
  | O => NoFuel
  | S f => and_then (parse_unary f ts) (term_rest f)
  end

with term_rest (fuel : nat) (acc : ast) (ts : list token) {struct fuel} : parsed :=
  match fuel with
  | O => NoFuel
  | S f =>
      match ts with
      | Times :: r => and_then (parse_unary f r) (fun t => term_rest f (BinaryOp OpMul acc t))
      | Divide :: r => and_then (parse_unary f r) (fun t => term_rest f (BinaryOp OpDiv acc t))
      | _ => Parsed acc ts
      end
  end

with parse_unary (fuel : nat) (ts : list token) {struct fuel} : parsed :=
  match fuel with
  | O => NoFuel
  | S f =>
      match ts with
      | Minus :: r => and_then (parse_unary f r) (fun t rest => Parsed (Negate t) rest)
      | _ => parse_power f ts
      end
  end

with parse_power (fuel : nat) (ts : list token) {struct fuel} : parsed :=
  match fuel with
  | O => NoFuel
  | S f => and_then (parse_primary f ts) (power_rest f)
  end

with power_rest (fuel : nat) (base : ast) (ts : list token) {struct fuel} : parsed :=
  match fuel with
  | O => NoFuel
  | S f =>
      match ts with
      | Power :: r =>
          and_then (parse_unary f r) (fun t => power_rest f (BinaryOp OpPow base t))
      | _ => Parsed base ts
      end
  end

with parse_primary (fuel : nat) (ts : list token) {struct fuel} : parsed :=
  match fuel with
  | O => NoFuel
  | S f =>
      match ts with
      | Number w fr p :: r => Parsed (NumberLiteral w fr p) r
      | LParen :: r =>
          and_then (parse_expr f r)
            (fun t rest => match rest with RParen :: r' => Parsed t r' | _ => NoParse end)
      | Minus :: r => and_then (parse_unary f r) (fun t rest => Parsed (Negate t) rest)
      | _ => NoParse
      end
  end.

Definition fuel_for (ts : list token) : nat := 8 * List.length ts + 8.

Definition parse_tokens (ts : list token) : option ast :=
  match parse_expr (fuel_for ts) ts with
  | Parsed t [] => Some t
  | _ => None
  end.

(** A well-formed expression and its tree. *)
Definition parse (s : string) : option ast :=
  match tokenize s with
  | Some ts => parse_tokens ts
  | None => None
  end.

(** The value of a run of digits. *)
Fixpoint digits_value (acc : Z) (s : string) : Z :=
  match s with
  | EmptyString => acc
  | String c r => digits_value (10 * acc + Lexer.digit_value c) r
  end.

(** The number a literal denotes: an int without a point, the nearest double
    with one. *)
Definition literal_value (whole frac : string) (point : bool) : value :=
  if point
  then VFloat (F64.of_decimal (digits_value 0 (whole ++ frac)) (- Z.of_nat (String.length frac)))
  else VInt (digits_value 0 whole).

(** Standard arithmetic on the tree: each operator applied to the values of
    its operands, left operand first.  The arithmetic of the numbers is the
    interpreter's. *)
Fixpoint value_of (h : host) (t : ast) : res value :=
  match t with
  | NumberLiteral w f p => Ok (literal_value w f p)
  | Negate a => let! v := value_of h a in py_neg v
  | BinaryOp op l r =>
      let! a := value_of h l in
      let! b := value_of h r in
      match op with
      | OpAdd => py_add a b
      | OpSub => py_sub a b
      | OpMul => py_mul a b
      | OpDiv => py_truediv a b
      | OpPow => py_pow h a b
      end
  end.

(** A literal Python reads as written: a number with a point, or an integer
    that is a run of zeros or does not start with a zero. *)
Definition starts_with_zero (s : string) : bool :=
  match s with
  | String c _ => Lexer.digit_value c =? 0
  | EmptyString => false
  end.

Definition plain_literal (t : token) : bool :=
  match t with
  | Number w _ false => negb (starts_with_zero w && negb (digits_value 0 w =? 0))
  | _ => true
  end.

(** Every integer literal of the text is plain. *)
Definition plain (s : string) : bool :=
  match tokenize s with
  | Some ts => forallb plain_literal ts
  | None => false
  end.

End Spec.

(** *** From the grammar of the specification to Python's

    The Python token of a token, and the Python tree of a tree. *)

Definition python_token (t : Spec.token) : token :=
  match t with
  | Spec.Number w f true =>
      TFloat (F64.of_decimal (Spec.digits_value 0 (w ++ f)) (- Z.of_nat (String.length f)))
  | Spec.Number w _ false => TInt (Spec.digits_value 0 w)
  | Spec.Plus => TPlus
  | Spec.Minus => TMinus
  | Spec.Times => TStar
  | Spec.Divide => TSlash
  | Spec.Power => TDoubleStar
  | Spec.LParen => TLPar
  | Spec.RParen => TRPar
  end.

Definition python_operator (op : Spec.binary_operator) : operator :=
  match op with
  | Spec.OpAdd => Add
  | Spec.OpSub => Sub
  | Spec.OpMul => Mult
  | Spec.OpDiv => Div
  | Spec.OpPow => Pow
  end.

Fixpoint python_tree (t : Spec.ast) : expr :=
  match t with
  | Spec.NumberLiteral w f p => Constant (Spec.literal_value w f p)
  | Spec.Negate a => UnaryOp USub (python_tree a)
  | Spec.BinaryOp op l r => BinOp (python_tree l) (python_operator op) (python_tree r)
  end.

(** Two operator characters that Python reads as one token, or splits
    otherwise than the specification, when they are adjacent. *)
Definition clash (a b : Spec.token) : bool :=
  match a, b with
  | Spec.Times, Spec.Times | Spec.Times, Spec.Power | Spec.Divide, Spec.Divide => true
  | _, _ => false
  end.

Fixpoint separated (ts : list Spec.token) : bool :=
  match ts with
  | a :: r => match r with b :: _ => negb (clash a b) | [] => true end && separated r
  | [] => true
  end.

(** The tokenizer of the specification and Python's, in step: the pending
    operator is the [*] or [/] that Python has read and not yet emitted. *)
Inductive in_step : Spec.state -> Lexer.state -> list Spec.token -> Prop :=
  | step_idle : in_step Spec.Idle Lexer.Idle []
  | step_star : in_step Spec.Idle Lexer.Star [Spec.Times]
  | step_slash : in_step Spec.Idle Lexer.Slash [Spec.Divide]
  | step_whole w :
      w <> "" ->
      in_step (Spec.Whole w)
              (Lexer.InInt (Spec.starts_with_zero w) (Spec.digits_value 0 w)) []
  | step_point : in_step (Spec.Fraction "" "") Lexer.Dot []
  | step_fraction w f :
      w <> "" \/ f <> "" ->
      in_step (Spec.Fraction w f)
              (Lexer.InFrac (Spec.digits_value 0 (w ++ f)) (Z.of_nat (String.length f))) [].


(** The evaluation of an argument list, as [eval_expr] defines it inline. *)
Fixpoint eval_args (h : host) (env : gmap string value) (es : list expr) :
    res (list value) :=
  match es with
  | [] => Ok []
  | e' :: es' =>
      bind (eval_expr h env e') (fun v => bind (eval_args h env es') (fun vs => Ok (v :: vs)))
  end.

(* ---------- C6 ---------- *)
(** A real number that [evaluate] takes for zero. *)
Definition near_zero (v : value) : bool :=
  match v with
  | VFloat x => PrimFloat.ltb (PrimFloat.abs x) tiny
  | VInt n => n =? 0
  | _ => false
  end.

(* ---------- C3 ---------- *)
(** The C function behind a trigonometric name. *)
Definition trig_of (h : host) (f : math_fn) : float -> float :=
  match f with
  | m_sin => libm_sin h
  | m_cos => libm_cos h
  | m_tan => libm_tan h
  | m_asin => libm_asin h
  | m_acos => libm_acos h
  | m_atan => libm_atan h
  | _ => fun x => x
  end.

(** The token an operand starts with. *)
Definition starts_operand (ts : list Spec.token) : bool :=
  match ts with
  | Spec.Number _ _ _ :: _ | Spec.LParen :: _ | Spec.Minus :: _ => true
  | _ => false
  end.

(** What follows a unary expression is no [^]. *)
Definition starts_power (ts : list Spec.token) : bool :=
  match ts with Spec.Power :: _ => true | _ => false end.

(** The rest of a parse that Python can continue as a call. *)
Definition starts_call (ts : list Spec.token) : bool :=
  match ts with Spec.LParen :: _ => true | _ => false end.

Definition starts_minus (ts : list Spec.token) : bool :=
  match ts with Spec.Minus :: _ => true | _ => false end.

Abbreviation python_tokens := (List.map python_token).

Definition agrees (f : nat) : Prop :=
  (forall F ts t rest, (2 * f <= F)%nat ->
     Spec.parse_expr f ts = Spec.Parsed t rest -> starts_call rest = false ->
     Parser.parse_sum F (python_tokens ts) = Ok (python_tree t, python_tokens rest)) /\
  (forall F acc ts t rest, (2 * f <= F)%nat ->
     Spec.expr_rest f acc ts = Spec.Parsed t rest -> starts_call rest = false ->
     Parser.sum_rest F (python_tree acc) (python_tokens ts) =
     Ok (python_tree t, python_tokens rest)) /\
  (forall F ts t rest, (2 * f <= F)%nat ->
     Spec.parse_term f ts = Spec.Parsed t rest -> starts_call rest = false ->
     Parser.parse_term F (python_tokens ts) = Ok (python_tree t, python_tokens rest)) /\
  (forall F acc ts t rest, (2 * f <= F)%nat ->
     Spec.term_rest f acc ts = Spec.Parsed t rest -> starts_call rest = false ->
     Parser.term_rest F (python_tree acc) (python_tokens ts) =
     Ok (python_tree t, python_tokens rest)) /\
  (forall F ts t rest, (2 * f <= F)%nat ->
     Spec.parse_unary f ts = Spec.Parsed t rest -> starts_call rest = false ->
     Parser.parse_factor F (python_tokens ts) = Ok (python_tree t, python_tokens rest)) /\
  (forall F ts t rest, (2 * f <= F)%nat ->
     Spec.parse_power f ts = Spec.Parsed t rest ->
     starts_minus ts = false -> starts_call rest = false ->
     Parser.parse_power F (python_tokens ts) = Ok (python_tree t, python_tokens rest)) /\
  (forall F ts t rest, (2 * f <= F)%nat ->
     Spec.parse_primary f ts = Spec.Parsed t rest ->
     starts_minus ts = false -> starts_call rest = false ->
     Parser.parse_primary F (python_tokens ts) = Ok (python_tree t, python_tokens rest)).

Definition keeps_apart (f : nat) : Prop :=
  (forall ts t rest, Spec.parse_expr f ts = Spec.Parsed t rest ->
     separated rest = true -> separated ts = true) /\
  (forall acc ts t rest, Spec.expr_rest f acc ts = Spec.Parsed t rest ->
     separated rest = true -> separated ts = true) /\
  (forall ts t rest, Spec.parse_term f ts = Spec.Parsed t rest ->
     separated rest = true -> separated ts = true) /\
  (forall acc ts t rest, Spec.term_rest f acc ts = Spec.Parsed t rest ->
     separated rest = true -> separated ts = true) /\
  (forall ts t rest, Spec.parse_unary f ts = Spec.Parsed t rest ->
     separated rest = true -> separated ts = true) /\
  (forall ts t rest, Spec.parse_power f ts = Spec.Parsed t rest ->
     separated rest = true -> separated ts = true) /\
  (forall acc ts t rest, Spec.power_rest f acc ts = Spec.Parsed t rest ->
     separated rest = true -> separated ts = true) /\
  (forall ts t rest, Spec.parse_primary f ts = Spec.Parsed t rest ->
     separated rest = true -> separated ts = true).

(** A parse that had fuel enough and left at most [n - margin] tokens. *)
Definition within (margin n : nat) (p : Spec.parsed) : Prop :=
  match p with
  | Spec.Parsed _ rest => (List.length rest + margin <= n)%nat
  | Spec.NoParse => True
  | Spec.NoFuel => False
  end.

Definition fuelled (f : nat) : Prop :=
  (forall ts, (6 * List.length ts + 5 <= f)%nat ->
     within 1 (List.length ts) (Spec.parse_expr f ts)) /\
  (forall acc ts, (6 * List.length ts + 5 <= f)%nat ->
     within 0 (List.length ts) (Spec.expr_rest f acc ts)) /\
  (forall ts, (6 * List.length ts + 4 <= f)%nat ->
     within 1 (List.length ts) (Spec.parse_term f ts)) /\
  (forall acc ts, (6 * List.length ts + 4 <= f)%nat ->
     within 0 (List.length ts) (Spec.term_rest f acc ts)) /\
  (forall ts, (6 * List.length ts + 3 <= f)%nat ->
     within 1 (List.length ts) (Spec.parse_unary f ts)) /\
  (forall ts, (6 * List.length ts + 2 <= f)%nat ->
     within 1 (List.length ts) (Spec.parse_power f ts)) /\
  (forall acc ts, (6 * List.length ts + 2 <= f)%nat ->
     within 0 (List.length ts) (Spec.power_rest f acc ts)) /\
  (forall ts, (6 * List.length ts + 1 <= f)%nat ->
     within 1 (List.length ts) (Spec.parse_primary f ts)).

Definition arithmetic_chars : list ascii :=
  [ "0"; "1"; "2"; "3"; "4"; "5"; "6"; "7"; "8"; "9";
    "."; "+"; "-"; "*"; "/"; "^"; "("; ")" ]%char.

Fixpoint every (P : ascii -> Prop) (s : string) : Prop :=
  match s with
  | EmptyString => True
  | String c r => P c /\ every P r
  end.

(** Arithmetic on numbers stays within the numbers: it yields a number or
    raises. *)
Definition is_number (v : value) : bool :=
  match v with VInt _ | VFloat _ | VComplex _ _ => true | _ => false end.

Definition settled (r : res value) : Prop :=
  match r with
  | Ok v => is_number v = true
  | Raise _ => True
  | Outside => False
  end.

Definition complex_2f (re im : float) : string :=
  Dec.format_f 2 re ++ (if F64.sign_bit im then "" else "+") ++ Dec.format_f 2 im ++ "j".

(** * The window *)

(** ** ThemeManager

    The palettes, in the order of the dictionary [THEMES]; the calls on the
    Tk root and on the [ttk.Style] are kept as the settings they make. *)

Module Theme.

Definition palette : Type := list (string * string).

Definition THEMES : list (string * palette) :=
  [ ("Dark",
     [ ("bg_main", "#212121"); ("bg_panel", "#303030"); ("fg_text", "#ECEFF1");
       ("btn_num", "#424242"); ("btn_op", "#FF9800"); ("btn_eq", "#00BCD4");
       ("btn_func", "#616161"); ("active", "#757575"); ("highlight", "#B2EBF2") ]);
    ("Light",
     [ ("bg_main", "#F5F5F5"); ("bg_panel", "#FFFFFF"); ("fg_text", "#212121");
       ("btn_num", "#FFFFFF"); ("btn_op", "#FF9800"); ("btn_eq", "#03A9F4");
       ("btn_func", "#E0E0E0"); ("active", "#BDBDBD"); ("highlight", "#0288D1") ]);
    ("Neon",
     [ ("bg_main", "#0D0D0D"); ("bg_panel", "#1A1A1A"); ("fg_text", "#00FFCC");
       ("btn_num", "#1F1F1F"); ("btn_op", "#FF0055"); ("btn_eq", "#00FF99");
       ("btn_func", "#333333"); ("active", "#4D4D4D"); ("highlight", "#FFFFFF") ]) ].

(** [d[key]] and [d.get(key)] on a dictionary kept as its items. *)
Fixpoint lookup {A : Type} (key : string) (items : list (string * A)) : option A :=
  match items with
  | [] => None
  | (k, v) :: rest => if String.eqb k key then Some v else lookup key rest
  end.

(** [list.index]: the position of the first equal element. *)
Fixpoint index_of (x : string) (l : list string) : option nat :=
  match l with
  | [] => None
  | y :: rest => if String.eqb y x then Some O else option_map S (index_of x rest)
  end.

Inductive error : Type :=
  | KeyError (key : string)
  | ValueError_not_in_list (x : string).

(** The value of an option of a style. *)
Inductive setting : Type :=
  | Color (c : string)
  | Font (family : string) (size : Z) (bold : bool)
  | Relief (r : string)
  | Width (n : Z)
  | Padding (p : list Z)
  | ByState (m : list (string * string)).

(** The manager: [current_theme], the background set on the root, the theme
    in use and the settings made on the style, latest call last. *)
Record manager : Type := {
  current_theme : string;
  root_bg : string;
  theme_use : string;
  configured : list (string * list (string * setting));
  mapped : list (string * list (string * setting))
}.

(** The settings of [apply_theme] for a palette [colors]; [c] reads
    [colors[key]]. *)
Definition style_calls (c : string -> string) : list (string * list (string * setting)) :=
  [ ("TFrame", [("background", Color (c "bg_main"))]);
    ("Card.TFrame", [("background", Color (c "bg_panel")); ("relief", Relief "flat")]);
    ("TLabel", [("background", Color (c "bg_main")); ("foreground", Color (c "fg_text"));
                ("font", Font "Roboto" 10 false)]);
    ("Header.TLabel", [("font", Font "Roboto" 14 true)]);
    ("Result.TLabel", [("background", Color (c "bg_panel")); ("foreground", Color (c "fg_text"));
                       ("font", Font "Consolas" 24 false)]);
    ("TNotebook", [("background", Color (c "bg_main")); ("borderwidth", Width 0)]);
    ("TNotebook.Tab", [("padding", Padding [12; 8]); ("font", Font "Roboto" 10 false)]) ].

Definition style_maps (c : string -> string) : list (string * list (string * setting)) :=
  [ ("TNotebook.Tab",
     [ ("background", ByState [("selected", c "btn_eq"); ("!selected", c "bg_panel")]);
       ("foreground", ByState [("selected", "#FFFFFF"); ("!selected", c "fg_text")]) ]) ].

(** [apply_theme]: the name is stored before the palette is looked up, so a
    name that [THEMES] lacks is left in [current_theme] when [KeyError] is
    raised.  Every key that the method reads is in every palette. *)
Definition apply_theme (m : manager) (theme_name : string) : manager * option error :=
  let m1 := {| current_theme := theme_name; root_bg := root_bg m; theme_use := theme_use m;
               configured := configured m; mapped := mapped m |} in
  match lookup theme_name THEMES with
  | None => (m1, Some (KeyError theme_name))
  | Some colors =>
      let c key := match lookup key colors with Some v => v | None => "" end in
      ({| current_theme := theme_name;
          root_bg := c "bg_main";
          theme_use := "clam";
          configured := (configured m ++ style_calls c)%list;
          mapped := (mapped m ++ style_maps c)%list |}, None)
  end.

(** [cycle_theme]: the manager after the call, and the name returned or the
    exception raised. *)
Definition cycle_theme (m : manager) : manager * (string + error) :=
  let themes := map fst THEMES in
  match index_of (current_theme m) themes with
  | None => (m, inr (ValueError_not_in_list (current_theme m)))
  | Some idx =>
      match nth_error themes ((idx + 1) mod List.length themes)%nat with
      | Some next_theme =>
          match apply_theme m next_theme with
          | (m', None) => (m', inl next_theme)
          | (m', Some e) => (m', inr e)
          end
      | None => (m, inr (ValueError_not_in_list (current_theme m)))
      end
  end.

(** [get_color]: [None] inside [inl] is Python's [None]. *)
Definition get_color (m : manager) (key : string) : option string + error :=
  match lookup (current_theme m) THEMES with
  | Some colors => inl (lookup key colors)
  | None => inr (KeyError (current_theme m))
  end.

(** [__init__], on a root and a style with nothing set. *)
Definition init : manager * option error :=
  apply_theme {| current_theme := "Dark"; root_bg := ""; theme_use := "";
                 configured := []; mapped := [] |} "Dark".

End Theme.

(** ** CustomButton

    The options the class sets: a colour that is [None] leaves the option as
    it was, as Tkinter drops the options given as [None]. *)

Module Button.

Record button : Type := {
  btn_type : string;
  bg : string;
  fg : string;
  activebackground : string
}.

Definition c_map : list (string * string) :=
  [ ("num", "btn_num"); ("op", "btn_op"); ("eq", "btn_eq"); ("func", "btn_func") ].

Definition set_option (old : string) (new : option string) : string :=
  match new with Some c => c | None => old end.

(** [update_color] *)
Definition update_color (m : Theme.manager) (b : button) : button + Theme.error :=
  let key := match Theme.lookup (btn_type b) c_map with Some k => k | None => "btn_num" end in
  match Theme.get_color m key with
  | inr e => inr e
  | inl new_bg =>
      let new_fg :=
        if String.eqb (btn_type b) "op" || String.eqb (btn_type b) "eq"
        then inl (Some "#FFFFFF") else Theme.get_color m "fg_text" in
      match new_fg with
      | inr e => inr e
      | inl new_fg =>
          match Theme.get_color m "active" with
          | inr e => inr e
          | inl new_active =>
              inl {| btn_type := btn_type b;
                     bg := set_option (bg b) new_bg;
                     fg := set_option (fg b) new_fg;
                     activebackground := set_option (activebackground b) new_active |}
          end
      end
  end.

(** [on_enter] and [on_leave] *)
Definition on_enter (m : Theme.manager) (b : button) : button + Theme.error :=
  match Theme.get_color m "active" with
  | inr e => inr e
  | inl c =>
      inl {| btn_type := btn_type b; bg := set_option (bg b) c; fg := fg b;
             activebackground := activebackground b |}
  end.

Definition on_leave (m : Theme.manager) (b : button) : button + Theme.error :=
  update_color m b.

End Button.

(** ** CalculatorApp: the controller

    A Python [str] is kept as its UTF-8 bytes, as in [evaluate]. *)

Module App.

Record state : Type := {
  current_expression : string;
  is_result_shown : bool;
  engine_angle_mode : AngleMode;
  engine_history : list string;
  lbl_display : string;
  lbl_history : string;
  lbl_bin : string;
  lbl_hex : string;
  dialogs : list (string * string)
}.

(** The state that [__init__] and [_setup_ui] leave. *)
Definition initial : state := {|
  current_expression := "";
  is_result_shown := false;
  engine_angle_mode := DEG;
  engine_history := [];
  lbl_display := "0";
  lbl_history := "";
  lbl_bin := "BIN: 0";
  lbl_hex := "HEX: 0";
  dialogs := []
|}.

Definition set_expression (st : state) (e : string) (shown : bool) : state := {|
  current_expression := e;
  is_result_shown := shown;
  engine_angle_mode := engine_angle_mode st;
  engine_history := engine_history st;
  lbl_display := lbl_display st;
  lbl_history := lbl_history st;
  lbl_bin := lbl_bin st;
  lbl_hex := lbl_hex st;
  dialogs := dialogs st
|}.

(** [_update_display] *)
Definition _update_display (st : state) : state := {|
  current_expression := current_expression st;
  is_result_shown := is_result_shown st;
  engine_angle_mode := engine_angle_mode st;
  engine_history := engine_history st;
  lbl_display :=
    match current_expression st with EmptyString => "0" | text => text end;
  lbl_history := lbl_history st;
  lbl_bin := lbl_bin st;
  lbl_hex := lbl_hex st;
  dialogs := dialogs st
|}.

(** The labels of the buttons that are not ASCII: U+232B, U+00B1 and [x]
    followed by U+00B2. *)
Definition label_backspace : string := String "226" (String "140" (String "171" "")).
Definition label_plus_minus : string := String "194" (String "177" "").
Definition label_squared : string := String "x" (String "194" (String "178" "")).

(** A byte that continues a UTF-8 sequence. *)
Definition is_continuation (c : ascii) : bool :=
  ((128 <=? Lexer.code c) && (Lexer.code c <? 192))%N.

Fixpoint all_continuation (s : string) : bool :=
  match s with
  | EmptyString => true
  | String c r => is_continuation c && all_continuation r
  end.

(** [s[:-1]]: the text without its last character (the last byte that
    starts a UTF-8 sequence, and the bytes after it). *)
Fixpoint drop_last (s : string) : string :=
  match s with
  | EmptyString => EmptyString
  | String c r => if all_continuation r then EmptyString else String c (drop_last r)
  end.

(** [needle in hay] *)
Fixpoint contains (needle hay : string) : bool :=
  String.prefix needle hay ||
  match hay with
  | EmptyString => false
  | String _ r => contains needle r
  end.

(** [s.replace(c, '', 1)] *)
Fixpoint remove_first (c : ascii) (s : string) : string :=
  match s with
  | EmptyString => EmptyString
  | String d r => if Ascii.eqb d c then r else String d (remove_first c r)
  end.

Fixpoint all_digits (s : string) : bool :=
  match s with
  | EmptyString => true
  | String c r => Lexer.is_digit c && all_digits r
  end.

Fixpoint is_ascii (s : string) : bool :=
  match s with
  | EmptyString => true
  | String c r => (Lexer.code c <? 128)%N && is_ascii r
  end.

(** [float(s)] for digits with at most one point among them: the digits
    read so far and how many of them follow the point. *)
Fixpoint decimal_parts (s : string) (acc : Z) (places : option Z) : Z * Z :=
  match s with
  | EmptyString => (acc, match places with Some p => p | None => 0 end)
  | String c r =>
      if Lexer.is_digit c
      then decimal_parts r (10 * acc + Lexer.digit_value c) (option_map Z.succ places)
      else decimal_parts r acc (Some 0)
  end.

Definition float_of_decimal_text (s : string) : float :=
  let '(digits, places) := decimal_parts s 0 None in
  F64.of_decimal digits (- places).

(** [int(x)] for a double that is not negative; [None] when it raises. *)
Definition int_of_float (x : float) : option Z :=
  match Prim2SF x with
  | S754_zero _ => Some 0
  | S754_finite false m e =>
      Some (if 0 <=? e then Z.pos m * 2 ^ e else Z.pos m / 2 ^ (- e))
  | S754_finite true m e =>
      Some (- (if 0 <=? e then Z.pos m * 2 ^ e else Z.pos m / 2 ^ (- e)))
  | _ => None
  end.

Definition upper (c : ascii) : ascii :=
  if ((97 <=? Lexer.code c) && (Lexer.code c <=? 122))%N
  then ascii_of_N (Lexer.code c - 32) else c.

Fixpoint str_upper (s : string) : string :=
  match s with
  | EmptyString => EmptyString
  | String c r => String (upper c) (str_upper r)
  end.

(** [bin(val)[2:]] and [hex(val)[2:].upper()] *)
Definition bin_text (val : Z) : string := str_drop 2 (BinaryString.of_Z val).
Definition hex_text (val : Z) : string := str_upper (str_drop 2 (HexString.of_Z val)).

Section WithHost.

Variable h : host.

(** What the last lines of [_calculate_result] make of a text that is not
    ASCII ([str.isdigit] and [float] know the digits of other scripts): the
    new texts of the two labels, if they change. *)
Variable labels_outside : string -> option (string * string).

(** The new texts of the labels of the programmer tab, if they change. *)
Definition programmer_labels (result : string) : option (string * string) :=
  if negb (is_ascii result) then labels_outside result
  else
    let body := remove_first "." result in
    if match body with EmptyString => false | _ => all_digits body end
    then
      match int_of_float (float_of_decimal_text result) with
      | Some val => Some ("BIN: " ++ bin_text val, "HEX: " ++ hex_text val)
      | None => None
      end
    else None.

(** [_calculate_result] *)
Definition _calculate_result (st : state) : state :=
  let expression := current_expression st in
  let result := evaluate h (engine_angle_mode st) expression in
  let recorded := negb (String.eqb result "Error") in
  let labels := programmer_labels result in
  _update_display {|
    current_expression := result;
    is_result_shown := true;
    engine_angle_mode := engine_angle_mode st;
    engine_history :=
      if recorded then (engine_history st ++ [(expression ++ " = " ++ result)%string])%list
      else engine_history st;
    lbl_display := lbl_display st;
    lbl_history := if recorded then expression ++ " =" else lbl_history st;
    lbl_bin := match labels with Some (b, _) => b | None => lbl_bin st end;
    lbl_hex := match labels with Some (_, x) => x | None => lbl_hex st end;
    dialogs := dialogs st
  |}.

(** [on_button_click] *)
Definition on_button_click (st : state) (char : string) : state :=
  if String.eqb char "C" then
    _update_display (set_expression st "" false)
  else if String.eqb char label_backspace then
    _update_display
      (set_expression st (drop_last (current_expression st)) (is_result_shown st))
  else if String.eqb char "=" then
    _calculate_result st
  else if String.eqb char "DEG" then
    {| current_expression := current_expression st;
       is_result_shown := is_result_shown st;
       engine_angle_mode := RAD;
       engine_history := engine_history st;
       lbl_display := lbl_display st;
       lbl_history := lbl_history st;
       lbl_bin := lbl_bin st;
       lbl_hex := lbl_hex st;
       dialogs := (dialogs st ++ [("Mode", "Switched to Radians")])%list |}
  else if String.eqb char label_plus_minus then
    _update_display
      (set_expression st
         match current_expression st with
         | String "-" rest => rest
         | text => "-" ++ text
         end
         (is_result_shown st))
  else if is_result_shown st && contains char "0123456789." then
    _update_display (set_expression st char false)
  else
    _update_display
      (set_expression st
         (current_expression st ++ (if String.eqb char label_squared then "^2" else char))
         false).

(** A run of clicks. *)
Definition clicks (st : state) (chars : list string) : state :=
  fold_left on_button_click chars st.

(** [toggle_history] *)
Definition joined_history (entries : list string) : string :=
  String.concat (String "010" "") entries.

Definition last_entries (n : nat) (entries : list string) : list string :=
  skipn (List.length entries - n) entries.

Definition toggle_history (st : state) : state :=
  let hist := joined_history (last_entries 10 (engine_history st)) in
  {| current_expression := current_expression st;
     is_result_shown := is_result_shown st;
     engine_angle_mode := engine_angle_mode st;
     engine_history := engine_history st;
     lbl_display := lbl_display st;
     lbl_history := lbl_history st;
     lbl_bin := lbl_bin st;
     lbl_hex := lbl_hex st;
     dialogs :=
       (dialogs st ++
        [("Calculation History",
          match hist with EmptyString => "No history yet." | text => text end)])%list |}.

(** [float(entry.get())]: the double, or the exception raised. *)
Variable float_of_text : string -> res float.

(** The formula of [calc_emi]:
    [p * r * ((1+r)**n) / (((1+r)**n)-1)], operands left to right. *)
Definition emi (p : float) (r n : value) : res value :=
  let! pr := py_mul (VFloat p) r in
  let! base := py_add (VInt 1) r in
  let! growth := py_pow h base n in
  let! top := py_mul pr growth in
  let! base' := py_add (VInt 1) r in
  let! growth' := py_pow h base' n in
  let! bottom := py_sub growth' (VInt 1) in
  py_truediv top bottom.

(** [calc_emi] of the financial tab: the text it sets on the result label;
    the bare [except] takes every exception. *)
Definition calc_emi (principal rate years : string) : res string :=
  let attempt :=
    let! p := float_of_text principal in
    let! rt := float_of_text rate in
    let! r := py_truediv (VFloat rt) (VInt (12 * 100)) in
    let! y := float_of_text years in
    let! n := py_mul (VFloat y) (VInt 12) in
    let! e := emi p r n in
    let! text := format_2f e in
    Ok ("Monthly EMI: " ++ text) in
  match attempt with
  | Ok text => Ok text
  | Raise _ => Ok "Error: Check Input"
  | Outside => Outside
  end.

(** [solve] of the algebra tab: the text it sets on the result label. *)
Definition solve (a b c : string) : res string :=
  let attempt :=
    let! x := float_of_text a in
    let! y := float_of_text b in
    let! z := float_of_text c in
    let! roots := Solver.solve_quadratic h (VFloat x) (VFloat y) (VFloat z) in
    Ok ("Roots: " ++ roots) in
  match attempt with
  | Ok text => Ok text
  | Raise _ => Ok "Invalid Input"
  | Outside => Outside
  end.

End WithHost.

End App.

(** *** Words for the statements about the controller *)

(** The text that [_update_display] shows for an expression. *)
Definition shown (expression : string) : string :=
  match expression with EmptyString => "0" | text => text end.

(** The buttons that [on_button_click] does not type. *)
Definition special (char : string) : bool :=
  String.eqb char "C" || String.eqb char App.label_backspace || String.eqb char "=" ||
  String.eqb char "DEG" || String.eqb char App.label_plus_minus.

(** What a typed button adds to the expression. *)
Definition typed (char : string) : string :=
  if String.eqb char App.label_squared then "^2" else char.

(** One character: a byte that starts a UTF-8 sequence and the bytes that
    continue it. *)
Definition one_character (char : string) : bool :=
  match char with
  | EmptyString => false
  | String c r => negb (App.is_continuation c) && App.all_continuation r
  end.

(** A text that starts with two minus signs. *)
Definition double_minus (expression : string) : bool :=
  match expression with
  | String "-" (String "-" _) => true
  | _ => false
  end.

(** The display and the expression agree. *)
Definition display_current (st : App.state) : Prop :=
  App.lbl_display st = shown (App.current_expression st).

(** An entry of the history: an expression, [" = "], and a result that is
    not ["Error"]. *)
Definition history_entry (entry : string) : Prop :=
  exists expression result,
    entry = expression ++ " = " ++ result /\ result <> "Error".

(** The name of a palette of [THEMES]. *)
Definition known_theme (name : string) : bool :=
  match Theme.lookup name Theme.THEMES with Some _ => true | None => false end.

(** The theme after a theme, in the order of [THEMES]. *)
Definition next_theme (name : string) : string :=
  if String.eqb name "Dark" then "Light"
  else if String.eqb name "Light" then "Neon"
  else "Dark".

(** The text that a run of typed buttons adds to the expression. *)
Definition typed_text (chars : list string) : string :=
  fold_right (fun char rest => typed char ++ rest) "" chars.

(** A text of digits and points. *)
Fixpoint numeral (s : string) : bool :=
  match s with
  | EmptyString => true
  | String c r => (Lexer.is_digit c || Ascii.eqb c ".") && numeral r
  end.

(** A text of letters. *)
Fixpoint all_letters (s : string) : bool :=
  match s with
  | EmptyString => true
  | String c r => Lexer.is_letter c && all_letters r
  end.

Definition letters : list ascii :=
  [ "A"; "B"; "C"; "D"; "E"; "F"; "G"; "H"; "I"; "J"; "K"; "L"; "M";
    "N"; "O"; "P"; "Q"; "R"; "S"; "T"; "U"; "V"; "W"; "X"; "Y"; "Z";
    "a"; "b"; "c"; "d"; "e"; "f"; "g"; "h"; "i"; "j"; "k"; "l"; "m";
    "n"; "o"; "p"; "q"; "r"; "s"; "t"; "u"; "v"; "w"; "x"; "y"; "z" ]%char.

(** ** The keyboard

    [_bind_keys]: the Tk event patterns and what each one calls. *)

Module Keys.

Inductive action : Type :=
  | Click (char : string)
  | CopyToClipboard
  | ToggleTheme
  | ToggleHistory.

Definition typing_keys : string := "0123456789.+-*/^".

Fixpoint characters (s : string) : list string :=
  match s with
  | EmptyString => []
  | String c r => String c "" :: characters r
  end.

Definition _bind_keys : list (string * action) :=
  [ ("<Return>", Click "=");
    ("<BackSpace>", Click App.label_backspace);
    ("<Escape>", Click "C");
    ("<Control-c>", CopyToClipboard);
    ("<Control-t>", ToggleTheme);
    ("<Control-h>", ToggleHistory) ] ++
  map (fun key => (key, Click key)) (characters typing_keys).

(** The buttons that a run of events clicks; an event with no binding, and
    one bound to another method, clicks none. *)
Definition clicked (events : list string) : list string :=
  flat_map
    (fun event =>
       match Theme.lookup event _bind_keys with
       | Some (Click char) => [char]
       | _ => []
       end)
    events.

End Keys.

(** A text written with the keys that type. *)
Fixpoint typable (s : string) : bool :=
  match s with
  | EmptyString => true
  | String c r => App.contains (String c "") Keys.typing_keys && typable r
  end.

(** * Properties *)







Lemma evaluate_nonempty h mode c r :
  evaluate h mode (String c r) = handle (attempt h mode (clean_expr (String c r))).
Proof. reflexivity. Qed.

Lemma py_eval_ok h env src v :
  eval_fragment h env src = Ok v -> py_eval h env src = Returns v.
Proof. unfold py_eval. now intros ->. Qed.

Lemma py_eval_raise h env src e :
  eval_fragment h env src = Raise e -> py_eval h env src = Raises e.
Proof. unfold py_eval. now intros ->. Qed.

Lemma over_limit_small h d : d <= 640 -> over_limit (int_max_str_digits h) d = false.
Proof.
  intros Hd. unfold over_limit.
  destruct (int_max_str_digits_valid h) as [-> | Hl]; [reflexivity |].
  apply andb_false_iff. right. apply Z.ltb_ge. lia.
Qed.

Lemma py_str_int_small h n :
  digits_of n <= 640 -> py_str h (VInt n) = Returns (str_of_Z n).
Proof. intros Hd. simpl. now rewrite over_limit_small. Qed.


Lemma evaluate_returns h mode c r v :
  eval_fragment h (environment mode) (clean_expr (String c r)) = Ok v ->
  evaluate h mode (String c r) = handle (present h v).
Proof. intros H. rewrite evaluate_nonempty. unfold attempt. now rewrite (py_eval_ok _ _ _ _ H). Qed.

Lemma evaluate_raises h mode c r e :
  eval_fragment h (environment mode) (clean_expr (String c r)) = Raise e ->
  evaluate h mode (String c r) = handle (Raises e).
Proof. intros H. rewrite evaluate_nonempty. unfold attempt. now rewrite (py_eval_raise _ _ _ _ H). Qed.


















(** *** Facts about doubles, from the specification of the kernel's floats *)

Lemma Prim2SF_zero : Prim2SF 0 = S754_zero false.
Proof. reflexivity. Qed.

Lemma SFcompare_refl_finite s m e : SFcompare (S754_finite s m e) (S754_finite s m e) = Some Eq.
Proof.
  simpl. rewrite Z.compare_refl.
  replace (Pos.compare_cont Eq m m) with (Pos.compare m m) by reflexivity.
  rewrite Pos.compare_refl. now destruct s.
Qed.

Lemma ltb_zero_not_nan x : PrimFloat.ltb x 0 = true -> F64.is_nan x = false.
Proof.
  unfold F64.is_nan. rewrite FloatAxioms.ltb_spec, FloatAxioms.eqb_spec, Prim2SF_zero. unfold SFltb, SFeqb.
  destruct (Prim2SF x) as [s | s | | s m e]; try discriminate.
  - now destruct s.
  - now rewrite SFcompare_refl_finite.
Qed.

Lemma ltb_zero_not_zero x : PrimFloat.ltb x 0 = true -> PrimFloat.eqb x 0 = false.
Proof.
  rewrite FloatAxioms.ltb_spec, FloatAxioms.eqb_spec, Prim2SF_zero. unfold SFltb, SFeqb.
  destruct (Prim2SF x) as [s | s | | s m e]; try discriminate; now destruct s.
Qed.

Lemma eqb_zero_integer y : PrimFloat.eqb y 0 = true -> F64.is_integer y = true.
Proof.
  unfold F64.is_integer, F64.to_Z_exact. rewrite FloatAxioms.eqb_spec, Prim2SF_zero. unfold SFeqb.
  destruct (Prim2SF y) as [s | s | | s m e]; try discriminate; try reflexivity; now destruct s.
Qed.

Lemma is_finite_parts x :
  F64.is_finite x = true -> F64.is_nan x = false /\ F64.is_inf x = false.
Proof. unfold F64.is_finite. destruct (F64.is_nan x), (F64.is_inf x); simpl; auto; discriminate. Qed.

(** A negative base with an exponent that is no integer: [float_pow] hands
    the operation to the complex power. *)
Lemma float_pow_negative_base h x y :
  PrimFloat.ltb x 0 = true -> F64.is_finite x = true ->
  F64.is_finite y = true -> F64.is_integer y = false ->
  float_pow h x y = complex_pow h (x, 0%float) (y, 0%float).
Proof.
  intros Hneg Hfx Hfy Hint. unfold float_pow.
  destruct (is_finite_parts _ Hfx) as [Hnx Hix].
  destruct (is_finite_parts _ Hfy) as [Hny Hiy].
  destruct (PrimFloat.eqb y 0) eqn:Hy0.
  { apply eqb_zero_integer in Hy0. congruence. }
  rewrite Hnx, Hny, Hiy, Hix, (ltb_zero_not_zero _ Hneg), Hneg, Hint. reflexivity.
Qed.

Lemma append_j_not_error s : (s ++ "j")%string <> "Error".
Proof. do 6 (destruct s as [| ? s]; [discriminate |]). discriminate. Qed.

Lemma complex_repr_not_error re im : complex_repr re im <> "Error".
Proof.
  unfold complex_repr. destruct (_ && _); [apply append_j_not_error | discriminate].
Qed.



(* ---------- C9 ---------- *)
Lemma rejects_not_empty s : Lexer.rejects s = true -> s <> "".
Proof. destruct s; [discriminate | discriminate]. Qed.

Lemma clean_expr_empty : clean_expr "" = "".
Proof. reflexivity. Qed.




(* ---------- C5 ---------- *)
(** C5: [solve_linear] returns "No Solution" whenever [a == 0], whatever
    [b] is, and [-b / a] otherwise, on floats and on ints; [solve_linear(0, 5)]
    and [solve_linear(0, 0)] are "No Solution" and [solve_linear(2, -4)] is
    2. *)
Theorem solve_linear_spec (a b : float) :
  (PrimFloat.eqb a 0 = true ->
     Solver.solve_linear (VFloat a) (VFloat b) = Ok (VOther "No Solution"))
  /\ (PrimFloat.eqb a 0 = false ->
        Solver.solve_linear (VFloat a) (VFloat b) = Ok (VFloat (- b / a)))
  /\ (forall x y : Z, Solver.solve_linear (VInt 0) (VInt y) = Ok (VOther "No Solution")
        /\ (x <> 0 -> Solver.solve_linear (VInt x) (VInt y) = int_true_divide (- y) x))
  /\ Solver.solve_linear (VInt 0) (VInt 5) = Ok (VOther "No Solution")
  /\ Solver.solve_linear (VInt 0) (VInt 0) = Ok (VOther "No Solution")
  /\ Solver.solve_linear (VInt 2) (VInt (-4)) = Ok (VFloat 2).
Proof.
  unfold Solver.solve_linear.
  split; [| split; [| split; [| repeat split]]].
  - intros Ha. simpl. now rewrite Ha.
  - intros Ha. simpl. rewrite Ha. simpl.
    change (py_truediv (VFloat (- b)) (VFloat a))
      with (if PrimFloat.eqb a 0 then Raise ZeroDivisionError else Ok (VFloat (- b / a))).
    now rewrite Ha.
  - intros x y. split; [reflexivity |]. intros Hx. simpl.
    destruct (Z.eqb_spec x 0); [contradiction | reflexivity].
Qed.

Lemma py_eval_empty h mode : py_eval h (environment mode) "" = Raises SyntaxError.
Proof. destruct mode; reflexivity. Qed.

Lemma near_zero_shown h mode expression v :
  py_eval h (environment mode) (clean_expr expression) = Returns v ->
  near_zero v = true ->
  evaluate h mode expression = "0".
Proof.
  intros Hev Hv.
  destruct expression as [| c r].
  { rewrite clean_expr_empty, py_eval_empty in Hev. discriminate. }
  rewrite evaluate_nonempty. unfold attempt. rewrite Hev.
  destruct v as [n | x | re im | f | t]; try discriminate; simpl in Hv.
  - apply Z.eqb_eq in Hv. subst n. unfold present.
    rewrite py_str_int_small by (vm_compute; discriminate). reflexivity.
  - unfold present. rewrite Hv. reflexivity.
Qed.

(** C6: when the evaluation of the expression returns a real number whose
    absolute value is below [1e-10], [evaluate] returns "0": a float is
    replaced by the int [0] and formatted with ten digits, the only int
    below [1e-10] is [0] and its text is "0". *)
Theorem evaluate_near_zero (h : host) (mode : AngleMode) (expression : string) (v : value) :
  py_eval h (environment mode) (clean_expr expression) = Returns v ->
  near_zero v = true ->
  present h v = Returns "0" /\ evaluate h mode expression = "0".
Proof.
  intros Hev Hv. split; [|now apply (near_zero_shown h mode expression v)].
  destruct v as [n | x | re im | f | t]; try discriminate; simpl in Hv.
  - apply Z.eqb_eq in Hv. subst n. unfold present.
    rewrite py_str_int_small by (vm_compute; discriminate). reflexivity.
  - unfold present. rewrite Hv. reflexivity.
Qed.

Lemma evaluate_near_zero_witness :
  py_eval Sample.host (environment DEG) (clean_expr "sin(180)")
    = Returns (VFloat 0x1.1a62633145c07p-53)
  /\ near_zero (VFloat 0x1.1a62633145c07p-53) = true
  /\ evaluate Sample.host DEG "sin(180)" = "0".
Proof.
  split; [vm_compute; reflexivity |]. split; [vm_compute; reflexivity |].
  refine (proj2 (evaluate_near_zero Sample.host DEG "sin(180)"
                   (VFloat 0x1.1a62633145c07p-53) _ _));
    vm_compute; reflexivity.
Defined.

(** In degree mode [evaluate("sin(180)")] is "0" on any C library whose sine
    of the double nearest pi is below 1e-10 in absolute value: the float that
    [_get_trig_func] computes is shown as zero. *)
Lemma evaluate_sin_180 h :
  PrimFloat.ltb (PrimFloat.abs (libm_sin h math_pi)) tiny = true ->
  evaluate h DEG "sin(180)" = "0".
Proof.
  intros Hs.
  assert (Hnn : F64.is_nan (libm_sin h math_pi) = false /\ F64.is_inf (libm_sin h math_pi) = false).
  { revert Hs. unfold F64.is_nan, F64.is_inf.
    rewrite !FloatAxioms.ltb_spec, !FloatAxioms.eqb_spec, FloatAxioms.abs_spec.
    destruct (Prim2SF (libm_sin h math_pi)) as [s | s | | s m e]; try discriminate.
    - now destruct s.
    - intros _. split.
      + unfold SFeqb. now rewrite SFcompare_refl_finite.
      + now destruct s. }
  destruct Hnn as [Hn Hi].
  apply (near_zero_shown h DEG "sin(180)" (VFloat (libm_sin h math_pi))); [| exact Hs].
  apply py_eval_ok.
  transitivity (math_1 (libm_sin h) false (VFloat math_pi)); [vm_compute; reflexivity |].
  unfold math_1. simpl. now rewrite Hn, Hi.
Qed.

Lemma evaluate_sin_180_witness : evaluate Sample.host DEG "sin(180)" = "0".
Proof. apply (evaluate_sin_180 Sample.host). vm_compute. reflexivity. Defined.

(** C3: in degree mode [sin], [cos] and [tan] of [x] are the C function
    applied to [x] converted to radians, and [asin], [acos] and [atan]
    convert the result of the C function to degrees; in radian mode the six
    apply the C function directly.  On a C library whose sine is exact at the
    double nearest pi/2 and at zero, [evaluate("sin(90)")] is "1" in degree
    mode and [evaluate("sin(0)")] is "0" in radian mode. *)
Theorem trig_follows_angle_mode (h : host)
  (sin_quarter_turn : libm_sin h 0x1.921fb54442d18p+0 = 1%float)
  (sin_zero : libm_sin h 0 = 0%float) :
  (forall name f x, In (name, f) [("sin", m_sin); ("cos", m_cos); ("tan", m_tan)] ->
     eval_expr h (environment DEG) (Call (Name name) [Constant (VFloat x)])
       = math_1 (trig_of h f) false (VFloat (x * degToRad))
     /\ eval_expr h (environment RAD) (Call (Name name) [Constant (VFloat x)])
       = math_1 (trig_of h f) false (VFloat x))
  /\ (forall name f x, In (name, f) [("asin", m_asin); ("acos", m_acos); ("atan", m_atan)] ->
     eval_expr h (environment DEG) (Call (Name name) [Constant (VFloat x)])
       = bind (math_1 (trig_of h f) false (VFloat x)) math_degrees
     /\ eval_expr h (environment RAD) (Call (Name name) [Constant (VFloat x)])
       = math_1 (trig_of h f) false (VFloat x))
  /\ (forall y, math_degrees (VFloat y) = Ok (VFloat (y * radToDeg)))
  /\ evaluate h DEG "sin(90)" = "1"
  /\ evaluate h RAD "sin(0)" = "0".
Proof.
  split; [| split; [| split; [| split]]].
  - intros name f x Hin. simpl in Hin.
    destruct Hin as [[= <- <-] | [[= <- <-] | [[= <- <-] | []]]]; split; reflexivity.
  - intros name f x Hin. simpl in Hin.
    destruct Hin as [[= <- <-] | [[= <- <-] | [[= <- <-] | []]]]; split; try reflexivity.
    all: match goal with
         | |- ?lhs = math_1 ?g false ?v =>
             change lhs with (bind (math_1 g false v) (fun val => Ok val));
             destruct (math_1 g false v); reflexivity
         end.
  - reflexivity.
  - apply (evaluate_returns h DEG "s" "in(90)" (VFloat 1)).
    transitivity (math_1 (libm_sin h) false (VFloat 0x1.921fb54442d18p+0));
      [vm_compute; reflexivity |].
    unfold math_1. simpl. now rewrite sin_quarter_turn.
  - apply (evaluate_returns h RAD "s" "in(0)" (VFloat 0)).
    transitivity (math_1 (libm_sin h) false (VInt 0)); [vm_compute; reflexivity |].
    unfold math_1. simpl.
    change (F64.of_scaled 0 0) with 0%float. now rewrite sin_zero.
Qed.

Lemma trig_follows_angle_mode_witness :
  libm_sin Sample.host 0x1.921fb54442d18p+0 = 1%float
  /\ libm_sin Sample.host 0 = 0%float
  /\ evaluate Sample.host DEG "sin(90)" = "1"
  /\ evaluate Sample.host RAD "sin(0)" = "0".
Proof.
  split; [vm_compute; reflexivity |]. split; [vm_compute; reflexivity |].
  apply (trig_follows_angle_mode Sample.host); vm_compute; reflexivity.
Defined.

Lemma complex_pow_no_value_error h a b : complex_pow h a b <> Raise ValueError.
Proof.
  unfold complex_pow.
  match goal with |- context [let '(p, edom) := ?c in _] => destruct c as [p edom] end.
  destruct edom; [discriminate |]. destruct (_ || _); discriminate.
Qed.

(** C8 (as amended): a power whose base evaluates to a negative finite
    number and whose exponent evaluates to a finite float that is no integer
    is computed by the complex power.  It raises no [ValueError]; the complex
    number it returns is shown as its text, which is not "Error". *)
Theorem power_of_negative_base (h : host) (env : gmap string value)
    (l r : expr) (a : value) (x y : float) :
  eval_expr h env l = Ok a -> eval_expr h env r = Ok (VFloat y) ->
  as_double a = Ok x ->
  PrimFloat.ltb x 0 = true -> F64.is_finite x = true ->
  F64.is_finite y = true -> F64.is_integer y = false ->
  eval_expr h env (BinOp l Pow r) = complex_pow h (x, 0%float) (y, 0%float)
  /\ complex_pow h (x, 0%float) (y, 0%float) <> Raise ValueError
  /\ forall re im,
       complex_pow h (x, 0%float) (y, 0%float) = Ok (VComplex re im) ->
       present h (VComplex re im) = Returns (complex_repr re im)
       /\ complex_repr re im <> "Error".
Proof.
  intros Hl Hr Ha Hneg Hfx Hfy Hint. split; [| split].
  - simpl. rewrite Hl, Hr. simpl.
    rewrite <- (float_pow_negative_base h x y Hneg Hfx Hfy Hint).
    destruct a as [n | x' | re im | f | t]; simpl in Ha; try discriminate.
    + unfold py_pow, dispatch. simpl. rewrite Ha. reflexivity.
    + injection Ha as ->. reflexivity.
  - apply complex_pow_no_value_error.
  - intros re im _. split; [reflexivity | apply complex_repr_not_error].
Qed.

Lemma power_of_negative_base_witness :
  eval_expr Sample.host (environment DEG)
    (BinOp (BinOp (Constant (VInt 0)) Sub (Constant (VInt 2))) Pow (Constant (VFloat 0.5)))
    = complex_pow Sample.host ((-2)%float, 0%float) (0.5%float, 0%float)
  /\ complex_pow Sample.host ((-2)%float, 0%float) (0.5%float, 0%float)
     = Ok (VComplex 0x1.8f5a0be038ed7p-54 0x1.6a09e667f3bcdp+0).
Proof.
  split; [| vm_compute; reflexivity].
  apply (power_of_negative_base Sample.host (environment DEG) _ _ (VInt (-2)) (-2)%float 0.5%float);
    vm_compute; reflexivity.
Defined.

(** The square root of [-2], written as a power, is a complex number. *)
Lemma evaluate_complex_power_counterexample :
  evaluate Sample.host DEG "(0-2)^0.5" = "(8.659560562354934e-17+1.4142135623730951j)".
Proof. vm_compute. reflexivity. Qed.

(** *** The parser of the specification and Python's *)

Lemma and_then_parsed p k t rest :
  Spec.and_then p k = Spec.Parsed t rest ->
  exists t1 r1, p = Spec.Parsed t1 r1 /\ k t1 r1 = Spec.Parsed t rest.
Proof. destruct p; simpl; intros H; try discriminate. eauto. Qed.

Lemma primary_starts f ts t rest :
  Spec.parse_primary f ts = Spec.Parsed t rest -> starts_operand ts = true.
Proof. destruct f; simpl; [discriminate|]. destruct ts as [|[] ?]; simpl; congruence. Qed.

Lemma power_starts f ts t rest :
  Spec.parse_power f ts = Spec.Parsed t rest -> starts_operand ts = true.
Proof.
  destruct f; simpl; [discriminate|]. intros H.
  apply and_then_parsed in H as (? & ? & H & _). eauto using primary_starts.
Qed.

Lemma unary_starts f ts t rest :
  Spec.parse_unary f ts = Spec.Parsed t rest -> starts_operand ts = true.
Proof.
  destruct f; [discriminate|].
  destruct ts as [|[] ?]; try reflexivity; intros H; exact (power_starts _ _ _ _ H).
Qed.

Lemma term_starts f ts t rest :
  Spec.parse_term f ts = Spec.Parsed t rest -> starts_operand ts = true.
Proof.
  destruct f; simpl; [discriminate|]. intros H.
  apply and_then_parsed in H as (? & ? & H & _). eauto using unary_starts.
Qed.

Lemma expr_starts f ts t rest :
  Spec.parse_expr f ts = Spec.Parsed t rest -> starts_operand ts = true.
Proof.
  destruct f; simpl; [discriminate|]. intros H.
  apply and_then_parsed in H as (? & ? & H & _). eauto using term_starts.
Qed.

Lemma no_power_follows f :
  (forall ts t rest, Spec.parse_unary f ts = Spec.Parsed t rest -> starts_power rest = false) /\
  (forall ts t rest, Spec.parse_power f ts = Spec.Parsed t rest -> starts_power rest = false) /\
  (forall b ts t rest, Spec.power_rest f b ts = Spec.Parsed t rest -> starts_power rest = false).
Proof.
  induction f as [|f (IHu & IHp & IHr)]; [repeat split; intros; discriminate|].
  repeat split.
  - intros ts t rest H. simpl in H.
    destruct ts as [|[] ?]; eauto;
      apply and_then_parsed in H as (? & ? & H & [= <- <-]); eauto.
  - intros ts t rest H. simpl in H.
    apply and_then_parsed in H as (? & ? & _ & H). eauto.
  - intros b ts t rest H. simpl in H.
    destruct ts as [|[] ?]; try (injection H as <- <-; reflexivity).
    apply and_then_parsed in H as (? & ? & _ & H). eauto.
Qed.

Lemma power_rest_stops f b ts :
  starts_power ts = false -> Spec.power_rest (S f) b ts = Spec.Parsed b ts.
Proof. destruct ts as [|[] ?]; simpl; congruence. Qed.

Lemma expr_rest_call f acc ts t rest :
  Spec.expr_rest f acc ts = Spec.Parsed t rest -> starts_call ts = true -> starts_call rest = true.
Proof.
  destruct f; simpl; [discriminate|].
  destruct ts as [|[] ?]; simpl; try discriminate. now intros [= <- <-].
Qed.

Lemma term_rest_call f acc ts t rest :
  Spec.term_rest f acc ts = Spec.Parsed t rest -> starts_call ts = true -> starts_call rest = true.
Proof.
  destruct f; simpl; [discriminate|].
  destruct ts as [|[] ?]; simpl; try discriminate. now intros [= <- <-].
Qed.

Lemma not_call ts : starts_call ts <> true -> starts_call ts = false.
Proof. destruct (starts_call ts); congruence. Qed.

Lemma trailers_none F a ts :
  starts_call ts = false ->
  Parser.trailers (S F) a (python_tokens ts) = Ok (a, python_tokens ts).
Proof. destruct ts as [|[? ? []| | | | | | |] ?]; simpl; congruence. Qed.

Lemma atom_group F ts :
  starts_operand ts = true ->
  Parser.parse_atom (S F) (TLPar :: python_tokens ts) =
  let! '(e, r') := Parser.parse_sum F (python_tokens ts) in
  match r' with
  | TRPar :: r'' => Ok (e, r'')
  | TComma :: _ => Outside
  | _ => Raise SyntaxError
  end.
Proof. destruct ts as [|[? ? []| | | | | | |] ?]; simpl; congruence. Qed.

Lemma power_tail F b ts :
  starts_power ts = false ->
  match python_tokens ts with
  | TDoubleStar :: r' =>
      let! '(e, r'') := Parser.parse_factor F r' in Ok (BinOp b Pow e, r'')
  | _ => Ok (b, python_tokens ts)
  end = Ok (b, python_tokens ts).
Proof. destruct ts as [|[? ? []| | | | | | |] ?]; simpl; congruence. Qed.

Ltac more_fuel F F' := destruct F as [|F']; [lia|].

Lemma parsers_agree f : agrees f.
Proof.
  induction f as [f IH] using lt_wf_ind.
  destruct f as [|f]; [repeat split; intros; discriminate|].
  destruct (IH f ltac:(lia)) as (IHe & IHer & IHt & IHtr & IHu & IHp & IHpr).
  repeat split.
  - (* expr *)
    intros F ts t rest HF H Hrest. more_fuel F F0. simpl in H.
    apply and_then_parsed in H as (t1 & r1 & H1 & H2).
    assert (Hr1 : starts_call r1 = false).
    { apply not_call. intros E. pose proof (expr_rest_call _ _ _ _ _ H2 E). congruence. }
    cbn [Parser.parse_sum]. rewrite (IHt F0 ts t1 r1) by (lia || assumption).
    cbn [bind]. apply IHer; (lia || assumption).
  - (* expr_rest *)
    intros F acc ts t rest HF H Hrest. more_fuel F F0. simpl in H.
    destruct ts as [|[w fr p| | | | | | |] r];
      try (injection H as <- <-; try destruct p; reflexivity);
      apply and_then_parsed in H as (t1 & r1 & H1 & H2);
      (assert (Hr1 : starts_call r1 = false);
       [apply not_call; intros E; pose proof (expr_rest_call _ _ _ _ _ H2 E); congruence|]);
      cbn [Parser.sum_rest List.map python_token];
      rewrite (IHt F0 r t1 r1) by (lia || assumption);
      cbn [bind];
      match type of H2 with Spec.expr_rest _ ?a _ = _ => apply (IHer F0 a) end;
      (lia || assumption).
  - (* term *)
    intros F ts t rest HF H Hrest. more_fuel F F0. simpl in H.
    apply and_then_parsed in H as (t1 & r1 & H1 & H2).
    assert (Hr1 : starts_call r1 = false).
    { apply not_call. intros E. pose proof (term_rest_call _ _ _ _ _ H2 E). congruence. }
    cbn [Parser.parse_term]. rewrite (IHu F0 ts t1 r1) by (lia || assumption).
    cbn [bind]. apply IHtr; (lia || assumption).
  - (* term_rest *)
    intros F acc ts t rest HF H Hrest. more_fuel F F0. simpl in H.
    destruct ts as [|[w fr p| | | | | | |] r];
      try (injection H as <- <-; try destruct p; reflexivity);
      apply and_then_parsed in H as (t1 & r1 & H1 & H2);
      (assert (Hr1 : starts_call r1 = false);
       [apply not_call; intros E; pose proof (term_rest_call _ _ _ _ _ H2 E); congruence|]);
      cbn [Parser.term_rest List.map python_token];
      rewrite (IHu F0 r t1 r1) by (lia || assumption);
      cbn [bind];
      match type of H2 with Spec.term_rest _ ?a _ = _ => apply (IHtr F0 a) end;
      (lia || assumption).
  - (* unary *)
    intros F ts t rest HF H Hrest. more_fuel F F0. simpl in H.
    destruct ts as [|[w fr p| | | | | | |] r];
      try (apply power_starts in H; discriminate).
    + pose proof (IHp F0 _ _ _ ltac:(lia) H eq_refl Hrest) as E.
      destruct p; exact E.
    + apply and_then_parsed in H as (t1 & r1 & H1 & [= <- <-]).
      cbn [Parser.parse_factor List.map python_token].
      rewrite (IHu F0 r t1 r1) by (lia || assumption). reflexivity.
    + exact (IHp F0 _ _ _ ltac:(lia) H eq_refl Hrest).
  - (* power *)
    intros F ts t rest HF H Hminus Hrest. more_fuel F F0. simpl in H.
    apply and_then_parsed in H as (b & r1 & H1 & H2).
    destruct f as [|f']; [discriminate|].
    cbn [Parser.parse_power].
    destruct (starts_power r1) eqn:Epow.
    + destruct r1 as [|[] r2]; try discriminate. simpl in H2.
      apply and_then_parsed in H2 as (u & r3 & H3 & H4).
      pose proof (proj1 (no_power_follows f') _ _ _ H3) as Hr3.
      destruct f' as [|f'']; [discriminate|].
      rewrite power_rest_stops in H4 by assumption. injection H4 as <- <-.
      rewrite (IHpr F0 ts b (Spec.Power :: r2)) by (lia || assumption || reflexivity).
      cbn [bind List.map python_token].
      destruct (IH (S f'') ltac:(lia)) as (_ & _ & _ & _ & IHu' & _).
      rewrite (IHu' F0 r2 u r3) by (lia || assumption). reflexivity.
    + rewrite power_rest_stops in H2 by assumption. injection H2 as <- <-.
      rewrite (IHpr F0 ts b r1) by (lia || assumption).
      cbn [bind]. now apply power_tail.
  - (* primary *)
    intros F ts t rest HF H Hminus Hrest. more_fuel F F0. more_fuel F0 F1.
    simpl in H. cbn [Parser.parse_primary].
    destruct ts as [|[w fr p| | | | | | |] r]; try discriminate.
    + injection H as <- <-.
      destruct p; cbn [Parser.parse_atom List.map python_token bind];
        now rewrite trailers_none.
    + apply and_then_parsed in H as (t1 & r1 & H1 & H2).
      destruct r1 as [|[] r2]; try discriminate. injection H2 as <- <-.
      cbn [List.map python_token].
      rewrite atom_group by eauto using expr_starts.
      rewrite (IHe F1 _ _ _ ltac:(lia) H1 eq_refl).
      cbn [bind List.map python_token]. now rewrite trailers_none.
Qed.

(** *** In a well-formed text no two operators clash *)

Lemma separated_operand a r :
  starts_operand r = true -> separated r = true -> separated (a :: r) = true.
Proof.
  intros Hs Hr. cbn [separated]. rewrite Hr.
  destruct r as [|[] ?]; try discriminate; destruct a; reflexivity.
Qed.

Lemma separated_quiet a r :
  (forall b, clash a b = false) -> separated r = true -> separated (a :: r) = true.
Proof.
  intros Ha Hr. cbn [separated]. rewrite Hr. destruct r; [reflexivity|]. now rewrite Ha.
Qed.

Lemma parse_keeps_apart f : keeps_apart f.
Proof.
  unfold keeps_apart.
  induction f as [|f IH]; [repeat split; intros; discriminate|].
  destruct IH as (IHe & IHer & IHt & IHtr & IHu & IHp & IHpr & IHa).
  repeat split.
  - intros ts t rest H Hrest. simpl in H.
    apply and_then_parsed in H as (t1 & r1 & H1 & H2). eauto.
  - intros acc ts t rest H Hrest. simpl in H.
    destruct ts as [|[] r]; try (injection H as <- <-; assumption);
      apply and_then_parsed in H as (t1 & r1 & H1 & H2);
      (apply separated_quiet; [intros []; reflexivity|eauto]).
  - intros ts t rest H Hrest. simpl in H.
    apply and_then_parsed in H as (t1 & r1 & H1 & H2). eauto.
  - intros acc ts t rest H Hrest. simpl in H.
    destruct ts as [|[] r]; try (injection H as <- <-; assumption);
      apply and_then_parsed in H as (t1 & r1 & H1 & H2);
      (apply separated_operand; [eauto using unary_starts|eauto]).
  - intros ts t rest H Hrest. simpl in H.
    destruct ts as [|[] r]; eauto.
    apply and_then_parsed in H as (t1 & r1 & H1 & [= <- <-]).
    apply separated_quiet; [intros []; reflexivity|eauto].
  - intros ts t rest H Hrest. simpl in H.
    apply and_then_parsed in H as (t1 & r1 & H1 & H2). eauto.
  - intros acc ts t rest H Hrest. simpl in H.
    destruct ts as [|[] r]; try (injection H as <- <-; assumption).
    apply and_then_parsed in H as (t1 & r1 & H1 & H2).
    apply separated_quiet; [intros []; reflexivity|eauto].
  - intros ts t rest H Hrest. simpl in H.
    destruct ts as [|[] r]; try discriminate.
    + injection H as <- <-. apply separated_quiet; [intros []; reflexivity|assumption].
    + apply and_then_parsed in H as (t1 & r1 & H1 & [= <- <-]).
      apply separated_quiet; [intros []; reflexivity|eauto].
    + apply and_then_parsed in H as (t1 & r1 & H1 & H2).
      destruct r1 as [|[] r2]; try discriminate. injection H2 as <- <-.
      apply separated_quiet; [intros []; reflexivity|].
      eapply IHe; [eassumption|].
      apply separated_quiet; [intros []; reflexivity|assumption].
Qed.

(** *** The parser of the specification never runs short of fuel *)

Lemma within_mono margin n margin' n' p :
  within margin n p -> (n + margin' <= n' + margin)%nat -> within margin' n' p.
Proof. destruct p; simpl; lia || tauto. Qed.

Lemma and_then_within p k n :
  within 1 n p ->
  (forall t rest, (List.length rest + 1 <= n)%nat -> within 0 (List.length rest) (k t rest)) ->
  within 1 n (Spec.and_then p k).
Proof.
  destruct p as [t1 r1| |]; simpl; try tauto. intros Hlen Hk.
  eapply within_mono; [apply (Hk t1 r1 Hlen)|lia].
Qed.

Ltac loop_step IHoperand IHrest r :=
  apply (within_mono 1 (List.length r)); [|simpl; lia];
  apply and_then_within; [apply IHoperand; simpl in *; lia|];
  intros ? ? ?; apply IHrest; simpl in *; lia.

Lemma spec_parser_fuelled f : fuelled f.
Proof.
  unfold fuelled.
  induction f as [|f IH]; [repeat split; intros; simpl in *; lia|].
  destruct IH as (IHe & IHer & IHt & IHtr & IHu & IHp & IHpr & IHa).
  split; [|split; [|split; [|split; [|split; [|split; [|split]]]]]].
  - intros ts Hf. cbn [Spec.parse_expr].
    apply and_then_within; [apply IHt; lia|].
    intros ? ? ?. apply IHer. lia.
  - intros acc ts Hf. cbn [Spec.expr_rest].
    destruct ts as [|[] r]; try (simpl; lia).
    + loop_step IHt IHer r.
    + loop_step IHt IHer r.
  - intros ts Hf. cbn [Spec.parse_term].
    apply and_then_within; [apply IHu; lia|].
    intros ? ? ?. apply IHtr. lia.
  - intros acc ts Hf. cbn [Spec.term_rest].
    destruct ts as [|[] r]; try (simpl; lia).
    + loop_step IHu IHtr r.
    + loop_step IHu IHtr r.
  - intros ts Hf. cbn [Spec.parse_unary].
    destruct ts as [|[] r]; try (apply IHp; simpl in *; lia).
    apply (within_mono 1 (List.length r)); [|simpl; lia].
    apply and_then_within; [apply IHu; simpl in *; lia|].
    intros ? ? ?. simpl. lia.
  - intros ts Hf. cbn [Spec.parse_power].
    apply and_then_within; [apply IHa; lia|].
    intros ? ? ?. apply IHpr. lia.
  - intros acc ts Hf. cbn [Spec.power_rest].
    destruct ts as [|[] r]; try (simpl; lia).
    loop_step IHu IHpr r.
  - intros ts Hf. cbn [Spec.parse_primary].
    destruct ts as [|[] r]; try exact I.
    + simpl. lia.
    + apply (within_mono 1 (List.length r)); [|simpl; lia].
      apply and_then_within; [apply IHu; simpl in *; lia|].
      intros ? ? ?. simpl. lia.
    + apply (within_mono 1 (List.length r)); [|simpl; lia].
      apply and_then_within; [apply IHe; simpl in *; lia|].
      intros ? [|[] ?] ?; simpl; (lia || exact I).
Qed.

(** The fuel of [Spec.parse_tokens] is enough for every token list. *)
Lemma spec_parse_has_fuel ts : Spec.parse_expr (Spec.fuel_for ts) ts <> Spec.NoFuel.
Proof.
  pose proof (proj1 (spec_parser_fuelled (Spec.fuel_for ts)) ts) as H.
  intros E. rewrite E in H. apply H. unfold Spec.fuel_for. lia.
Qed.

(** *** The tokenizer of the specification and Python's *)

Lemma code_inj c n : Lexer.code c = n -> c = ascii_of_N n.
Proof. intros <-. unfold Lexer.code. now rewrite ascii_N_embedding. Qed.

Lemma append_cons a w s : String a w ++ s = String a (w ++ s).
Proof. reflexivity. Qed.

Lemma digits_value_snoc w c acc :
  Spec.digits_value acc (w ++ String c "") =
  10 * Spec.digits_value acc w + Lexer.digit_value c.
Proof.
  revert acc. induction w as [|a w IH]; intros acc; [reflexivity|].
  rewrite append_cons. cbn [Spec.digits_value]. apply IH.
Qed.

Lemma starts_with_zero_snoc w c :
  w <> "" -> Spec.starts_with_zero (w ++ String c "") = Spec.starts_with_zero w.
Proof. destruct w; [congruence|reflexivity]. Qed.

Lemma snoc_not_empty w c : w ++ String c "" <> "".
Proof. destruct w; discriminate. Qed.

Lemma append_empty_r w : w ++ "" = w.
Proof. induction w as [|a w IH]; [reflexivity|rewrite !append_cons; congruence]. Qed.

Lemma append_assoc_snoc w f c : w ++ (f ++ String c "") = (w ++ f) ++ String c "".
Proof. induction w as [|a w IH]; [reflexivity|rewrite !append_cons; congruence]. Qed.

Lemma length_snoc f c : Z.of_nat (String.length (f ++ String c "")) = Z.of_nat (String.length f) + 1.
Proof.
  induction f as [|a f IH]; [reflexivity|].
  rewrite append_cons. cbn [String.length]. lia.
Qed.

Lemma flush_fraction w f :
  w <> "" \/ f <> "" -> Spec.flush (Spec.Fraction w f) = Some [Spec.Number w f true].
Proof. destruct w, f; simpl; intros [?|?]; congruence. Qed.

Lemma separated_app_l a b : separated (a ++ b) = true -> separated a = true.
Proof.
  induction a as [|x a IH]; [reflexivity|]. cbn [app separated].
  intros H. apply andb_prop in H as [H1 H2]. rewrite (IH H2).
  destruct a; [reflexivity|]. cbn [app] in H1. now rewrite H1.
Qed.

Lemma separated_app_r a b : separated (a ++ b) = true -> separated b = true.
Proof.
  induction a as [|x a IH]; [trivial|]. cbn [app separated].
  intros H. apply andb_prop in H as [_ H2]. auto.
Qed.

Lemma flush_agree st pst last out :
  in_step st pst last -> Spec.flush st = Some out ->
  forallb Spec.plain_literal out = true ->
  Lexer.flush pst = Ok (python_tokens (last ++ out)).
Proof.
  intros Hstep H Hplain.
  destruct Hstep as [| | |w Hw| |w f Hwf]; try (injection H as <-; reflexivity).
  - injection H as <-. simpl in Hplain. rewrite andb_true_r in Hplain.
    apply negb_true_iff in Hplain. simpl. now rewrite Hplain.
  - discriminate.
  - rewrite flush_fraction in H by assumption. injection H as <-. reflexivity.
Qed.

Lemma tokens_snoc (last o : list Spec.token) t :
  python_tokens (last ++ o ++ [t]) = (python_tokens (last ++ o) ++ [python_token t])%list.
Proof. now rewrite (app_assoc last o), map_app. Qed.

(** One character other than [^]. *)
Lemma step_agree c st pst last out st' :
  Lexer.code c <> 94%N ->
  in_step st pst last -> Spec.step st c = Some (out, st') ->
  forallb Spec.plain_literal out = true ->
  separated (last ++ out) = true ->
  exists emitted last' pst',
    (last ++ out = emitted ++ last')%list /\
    Lexer.step pst c = Ok (python_tokens emitted, pst') /\
    in_step st' pst' last'.
Proof.
  intros Hc Hstep H Hplain Hsep. unfold Spec.step in H.
  destruct (Lexer.is_digit c) eqn:Edigit.
  { (* a digit *)
    unfold Lexer.step. rewrite Edigit.
    destruct Hstep; injection H as <- <-.
    - exists [], [], (Lexer.InInt (Lexer.digit_value c =? 0) (Lexer.digit_value c)).
      repeat split. apply (step_whole (String c "")). discriminate.
    - exists [Spec.Times], [], (Lexer.InInt (Lexer.digit_value c =? 0) (Lexer.digit_value c)).
      repeat split. apply (step_whole (String c "")). discriminate.
    - exists [Spec.Divide], [], (Lexer.InInt (Lexer.digit_value c =? 0) (Lexer.digit_value c)).
      repeat split. apply (step_whole (String c "")). discriminate.
    - eexists [], [], _. repeat split.
      rewrite <- (starts_with_zero_snoc w c) by assumption.
      rewrite <- digits_value_snoc. apply step_whole, snoc_not_empty.
    - eexists [], [], _. repeat split.
      apply (step_fraction "" (String c "")). right. discriminate.
    - eexists [], [], _. repeat split.
      rewrite <- digits_value_snoc, <- append_assoc_snoc, <- (length_snoc f c).
      apply step_fraction. right. apply snoc_not_empty. }
  destruct (Lexer.code c =? 46)%N eqn:Epoint.
  { (* the point *)
    unfold Lexer.step. rewrite Edigit, Epoint.
    destruct Hstep; try (injection H as <- <-).
    - exists [], [], Lexer.Dot. repeat split. constructor.
    - exists [Spec.Times], [], Lexer.Dot. repeat split. constructor.
    - exists [Spec.Divide], [], Lexer.Dot. repeat split. constructor.
    - eexists [], [], _. repeat split.
      rewrite <- (append_empty_r w) at 2. apply (step_fraction w ""). now left.
    - discriminate.
    - rewrite flush_fraction in H by assumption. injection H as <- <-.
      eexists [_], [], _. repeat split. constructor. }
  (* an operator *)
  destruct (Spec.operator_token c) as [t|] eqn:Eop; [|discriminate].
  destruct (Spec.flush st) as [o|] eqn:Eflush; [|discriminate].
  injection H as <- <-.
  rewrite forallb_app in Hplain. apply andb_prop in Hplain as [Hplain _].
  pose proof (flush_agree _ _ _ _ Hstep Eflush Hplain) as Hflush.
  unfold Spec.operator_token in Eop.
  repeat match type of Eop with
  | (if (?n =? ?k)%N then _ else _) = _ =>
      let E := fresh "E" in
      destruct (n =? k)%N eqn:E;
      [apply N.eqb_eq, code_inj in E; subst c; injection Eop as <-|]
  end; try discriminate; try (exfalso; apply Hc; reflexivity).
  - (* + *)
    exists (last ++ o ++ [Spec.Plus])%list, [], Lexer.Idle.
    split; [now rewrite app_nil_r|split; [|constructor]].
    change (Lexer.step pst (ascii_of_N 43))
      with (bind (Lexer.flush pst) (fun out => Ok ((out ++ [TPlus])%list, Lexer.Idle))).
    rewrite Hflush. cbn [bind]. now rewrite tokens_snoc.
  - (* - *)
    exists (last ++ o ++ [Spec.Minus])%list, [], Lexer.Idle.
    split; [now rewrite app_nil_r|split; [|constructor]].
    change (Lexer.step pst (ascii_of_N 45))
      with (bind (Lexer.flush pst) (fun out => Ok ((out ++ [TMinus])%list, Lexer.Idle))).
    rewrite Hflush. cbn [bind]. now rewrite tokens_snoc.
  - (* * *)
    exists (last ++ o)%list, [Spec.Times], Lexer.Star.
    split; [now rewrite app_assoc|split; [|constructor]].
    change (Lexer.step pst (ascii_of_N 42))
      with (match pst with
            | Lexer.Star => Ok ([TDoubleStar], Lexer.Idle)
            | _ => bind (Lexer.flush pst) (fun out => Ok (out, Lexer.Star))
            end).
    destruct Hstep; try (rewrite Hflush; reflexivity).
    injection Eflush as <-. discriminate.
  - (* / *)
    exists (last ++ o)%list, [Spec.Divide], Lexer.Slash.
    split; [now rewrite app_assoc|split; [|constructor]].
    change (Lexer.step pst (ascii_of_N 47))
      with (match pst with
            | Lexer.Slash => Ok ([TDoubleSlash], Lexer.Idle)
            | _ => bind (Lexer.flush pst) (fun out => Ok (out, Lexer.Slash))
            end).
    destruct Hstep; try (rewrite Hflush; reflexivity).
    injection Eflush as <-. discriminate.
  - (* ( *)
    exists (last ++ o ++ [Spec.LParen])%list, [], Lexer.Idle.
    split; [now rewrite app_nil_r|split; [|constructor]].
    change (Lexer.step pst (ascii_of_N 40))
      with (bind (Lexer.flush pst) (fun out => Ok ((out ++ [TLPar])%list, Lexer.Idle))).
    rewrite Hflush. cbn [bind]. now rewrite tokens_snoc.
  - (* ) *)
    exists (last ++ o ++ [Spec.RParen])%list, [], Lexer.Idle.
    split; [now rewrite app_nil_r|split; [|constructor]].
    change (Lexer.step pst (ascii_of_N 41))
      with (bind (Lexer.flush pst) (fun out => Ok ((out ++ [TRPar])%list, Lexer.Idle))).
    rewrite Hflush. cbn [bind]. now rewrite tokens_snoc.
Qed.

(** The character [^], which the engine rewrites to [**]. *)
Lemma caret_agree st pst last out st' :
  in_step st pst last -> Spec.step st (ascii_of_N 94) = Some (out, st') ->
  forallb Spec.plain_literal out = true ->
  separated (last ++ out) = true ->
  st' = Spec.Idle /\
  forall tail rest, Lexer.run Lexer.Idle tail = Ok rest ->
    Lexer.run pst (String "*" (String "*" tail)) = Ok (python_tokens (last ++ out) ++ rest)%list.
Proof.
  intros Hstep H Hplain Hsep.
  change (Spec.step st (ascii_of_N 94))
    with (match Spec.flush st with
          | Some o => Some ((o ++ [Spec.Power])%list, Spec.Idle)
          | None => None
          end) in H.
  destruct (Spec.flush st) as [o|] eqn:Eflush; [|discriminate].
  injection H as <- <-. split; [reflexivity|]. intros tail rest Htail.
  rewrite forallb_app in Hplain. apply andb_prop in Hplain as [Hplain _].
  pose proof (flush_agree _ _ _ _ Hstep Eflush Hplain) as Hflush.
  change (Lexer.run pst (String "*" (String "*" tail)))
    with (bind (match pst with
                | Lexer.Star => Ok ([TDoubleStar], Lexer.Idle)
                | _ => bind (Lexer.flush pst) (fun out => Ok (out, Lexer.Star))
                end)
               (fun '(o1, s1) =>
                  bind (Lexer.run s1 (String "*" tail)) (fun r1 => Ok (o1 ++ r1)%list))).
  assert (Hrun : Lexer.run Lexer.Star (String "*" tail) = Ok (TDoubleStar :: rest)).
  { change (Lexer.run Lexer.Star (String "*" tail))
      with (bind (Lexer.run Lexer.Idle tail) (fun r => Ok ([TDoubleStar] ++ r)%list)).
    now rewrite Htail. }
  destruct Hstep; try (rewrite Hflush; cbn [bind]; rewrite Hrun; cbn [bind];
                       rewrite tokens_snoc, <- app_assoc; reflexivity).
  injection Eflush as <-. discriminate.
Qed.

Lemma replace_caret_cons c r :
  replace "^" "**" (String c r) =
  if (Lexer.code c =? 94)%N then String "*" (String "*" (replace "^" "**" r))
  else String c (replace "^" "**" r).
Proof.
  unfold replace. cbn [replace_from String.prefix String.length Nat.sub].
  destruct (ascii_dec "^" c) as [<-|Hne]; [now destruct r|].
  destruct (Lexer.code c =? 94)%N eqn:E; [|reflexivity].
  apply N.eqb_eq, code_inj in E. now subst c.
Qed.

Lemma lexers_agree s : forall st pst last ts,
  in_step st pst last -> Spec.run st s = Some ts ->
  forallb Spec.plain_literal ts = true ->
  separated (last ++ ts) = true ->
  Lexer.run pst (replace "^" "**" s) = Ok (python_tokens (last ++ ts)).
Proof.
  induction s as [|c r IH]; intros st pst last ts Hstep H Hplain Hsep.
  - now apply flush_agree with st.
  - cbn [Spec.run] in H.
    destruct (Spec.step st c) as [[out st']|] eqn:Estep; [|discriminate].
    destruct (Spec.run st' r) as [rest|] eqn:Erun; [|discriminate].
    injection H as <-.
    rewrite forallb_app in Hplain. apply andb_prop in Hplain as [Hout Hrest].
    rewrite app_assoc in Hsep.
    rewrite replace_caret_cons. destruct (Lexer.code c =? 94)%N eqn:Ecaret.
    + apply N.eqb_eq, code_inj in Ecaret. subst c.
      destruct (caret_agree _ _ _ _ _ Hstep Estep Hout (separated_app_l _ _ Hsep))
        as [-> Hcaret].
      rewrite (Hcaret _ (python_tokens rest)).
      * now rewrite (app_assoc last out rest), (map_app _ (last ++ out) rest).
      * apply (IH Spec.Idle Lexer.Idle [] rest); [constructor|assumption..|].
        now apply separated_app_r in Hsep.
    + apply N.eqb_neq in Ecaret.
      destruct (step_agree _ _ _ _ _ _ Ecaret Hstep Estep Hout (separated_app_l _ _ Hsep))
        as (emitted & last' & pst' & Heq & Hpy & Hstep').
      rewrite Heq, <- app_assoc in Hsep.
      cbn [Lexer.run]. rewrite Hpy. cbn [bind].
      rewrite (IH st' pst' last' rest Hstep' Erun Hrest (separated_app_r _ _ Hsep)).
      cbn [bind]. now rewrite (app_assoc last out rest), Heq, <- app_assoc, (map_app _ emitted).
Qed.

(** *** The characters of a well-formed text *)

Lemma every_impl (P Q : ascii -> Prop) s :
  (forall c, P c -> Q c) -> every P s -> every Q s.
Proof. intros HPQ. induction s; simpl; intuition. Qed.

Lemma digit_char c : Lexer.is_digit c = true -> In c arithmetic_chars.
Proof.
  unfold Lexer.is_digit. intros H. apply andb_prop in H as [H1 H2].
  apply N.leb_le in H1, H2.
  assert (Lexer.code c = 48 \/ Lexer.code c = 49 \/ Lexer.code c = 50 \/ Lexer.code c = 51 \/
          Lexer.code c = 52 \/ Lexer.code c = 53 \/ Lexer.code c = 54 \/ Lexer.code c = 55 \/
          Lexer.code c = 56 \/ Lexer.code c = 57)%N as Hc by lia.
  repeat destruct Hc as [Hc|Hc]; apply code_inj in Hc; subst c; simpl; tauto.
Qed.

Lemma step_char st c out st' :
  Spec.step st c = Some (out, st') -> In c arithmetic_chars.
Proof.
  unfold Spec.step. destruct (Lexer.is_digit c) eqn:Edigit; [intros _; now apply digit_char|].
  destruct (Lexer.code c =? 46)%N eqn:Epoint.
  { intros _. apply N.eqb_eq, code_inj in Epoint. subst c. simpl. tauto. }
  destruct (Spec.operator_token c) as [t|] eqn:Eop; [intros _|discriminate].
  unfold Spec.operator_token in Eop.
  repeat match type of Eop with
  | (if (?n =? ?k)%N then _ else _) = _ =>
      let E := fresh "E" in
      destruct (n =? k)%N eqn:E;
      [apply N.eqb_eq, code_inj in E; subst c; simpl; tauto|]
  end.
  discriminate.
Qed.

Lemma run_chars s : forall st ts,
  Spec.run st s = Some ts -> every (fun c => In c arithmetic_chars) s.
Proof.
  induction s as [|c r IH]; intros st ts H; [exact I|]. cbn [Spec.run] in H.
  destruct (Spec.step st c) as [[out st']|] eqn:Estep; [|discriminate].
  destruct (Spec.run st' r) as [rest|] eqn:Erun; [|discriminate].
  split; eauto using step_char.
Qed.

Lemma replace_absent a old new s :
  every (fun c => c <> a) s -> replace (String a old) new s = s.
Proof.
  unfold replace. induction s as [|c r IH]; [reflexivity|]. intros [Hc Hr].
  cbn [replace_from String.prefix]. destruct (ascii_dec a c) as [->|_]; [congruence|].
  now rewrite IH.
Qed.

Lemma replace_caret_chars s :
  every (fun c => In c arithmetic_chars) s ->
  every (fun c => In c arithmetic_chars) (replace "^" "**" s).
Proof.
  induction s as [|c r IH]; [trivial|]. intros [Hc Hr]. rewrite replace_caret_cons.
  destruct (Lexer.code c =? 94)%N; simpl; intuition.
Qed.

Lemma arithmetic_char_ascii c a :
  In c arithmetic_chars -> (128 <=? Lexer.code a)%N = true -> c <> a.
Proof.
  intros H Ha ->. simpl in H.
  repeat destruct H as [H|H]; try (subst a; discriminate). contradiction.
Qed.

Lemma clean_expr_arithmetic s :
  every (fun c => In c arithmetic_chars) s -> clean_expr s = replace "^" "**" s.
Proof.
  intros H. unfold clean_expr, glyph_times, glyph_divide, glyph_root.
  rewrite (replace_absent _ _ _ s), (replace_absent _ _ _ s), replace_absent;
    try reflexivity.
  - eapply every_impl; [|apply replace_caret_chars, H].
    intros c Hc. now apply arithmetic_char_ascii.
  - eapply every_impl; [|exact H]. intros c Hc. now apply arithmetic_char_ascii.
  - eapply every_impl; [|exact H]. intros c Hc. now apply arithmetic_char_ascii.
Qed.

Lemma rejects_arithmetic s :
  every (fun c => In c arithmetic_chars) s -> Lexer.rejects s = false.
Proof.
  induction s as [|c r IH]; [reflexivity|]. intros [Hc Hr]. simpl in Hc.
  repeat destruct Hc as [Hc|Hc]; try (subst c; exact (IH Hr)). contradiction.
Qed.

(** *** The value of a tree *)

Lemma eval_python_tree h env t : eval_expr h env (python_tree t) = Spec.value_of h t.
Proof.
  induction t as [w f p|a IH|op l IHl r IHr]; cbn [python_tree eval_expr Spec.value_of].
  - reflexivity.
  - now rewrite IH.
  - rewrite IHl, IHr. destruct (Spec.value_of h l); [|reflexivity..].
    destruct (Spec.value_of h r); [|reflexivity..]. now destruct op.
Qed.

Lemma float_of_int_settled n (k : float -> res value) :
  (forall x, settled (k x)) -> settled (bind (float_of_int n) k).
Proof. intros Hk. unfold float_of_int. destruct (F64.is_inf _); simpl; auto. Qed.

Lemma dispatch_settled on_int on_float on_complex a b :
  is_number a = true -> is_number b = true ->
  (forall x y, settled (on_int x y)) ->
  (forall x y, settled (on_float x y)) ->
  (forall f, on_complex = Some f -> forall x y, settled (f x y)) ->
  settled (dispatch on_int on_float on_complex a b).
Proof.
  intros Ha Hb Hint Hfloat Hcomplex.
  destruct a as [x|x|xr xi| |]; try discriminate;
    destruct b as [y|y|yr yi| |]; try discriminate;
    cbn [dispatch is_other is_func is_complex orb as_double as_complex];
    try apply Hint;
    try (destruct on_complex as [f|]; [|exact I]; pose proof (Hcomplex f eq_refl) as Hf);
    cbn [bind];
    repeat (apply float_of_int_settled; intros ?); cbn [bind]; auto.
  all: unfold float_of_int; destruct (F64.is_inf _); cbn [bind settled]; auto.
Qed.

Lemma complex_pow_settled h a b : settled (complex_pow h a b).
Proof.
  unfold complex_pow. cbv zeta.
  match goal with |- settled (let '(_, _) := ?e in _) => destruct e as [p edom] end.
  destruct edom; [exact I|]. destruct (_ || _); [exact I|reflexivity].
Qed.

Lemma float_pow_settled h x y : settled (float_pow h x y).
Proof.
  unfold float_pow.
  repeat match goal with
  | |- settled (if ?b then _ else _) => destruct b
  | |- settled (complex_pow _ _ _) => apply complex_pow_settled
  | |- settled (Ok _) => reflexivity
  | |- settled (Raise _) => exact I
  | |- settled (let _ := _ in _) => cbv zeta
  end.
Qed.

Lemma binary_settled h op a b :
  is_number a = true -> is_number b = true ->
  settled (match op with
           | Spec.OpAdd => py_add a b
           | Spec.OpSub => py_sub a b
           | Spec.OpMul => py_mul a b
           | Spec.OpDiv => py_truediv a b
           | Spec.OpPow => py_pow h a b
           end).
Proof.
  intros Ha Hb.
  destruct op; apply dispatch_settled; try assumption;
    try (intros f [= <-]); intros x y; try reflexivity.
  - unfold int_true_divide. destruct (_ =? _)%Z; [exact I|].
    cbv zeta. destruct (F64.is_inf _); [exact I|reflexivity].
  - destruct (PrimFloat.eqb y 0); [exact I|reflexivity].
  - destruct (c_quot x y); [reflexivity|exact I].
  - unfold int_pow. destruct (_ <=? _)%Z; [reflexivity|].
    repeat (apply float_of_int_settled; intros ?). apply float_pow_settled.
  - apply float_pow_settled.
  - apply complex_pow_settled.
Qed.

Lemma value_of_settled h t : settled (Spec.value_of h t).
Proof.
  induction t as [w f p|a IH|op l IHl r IHr]; cbn [Spec.value_of].
  - now destruct p.
  - destruct (Spec.value_of h a) as [[]| |]; cbn in *; try discriminate; auto.
  - destruct (Spec.value_of h l) as [a| |]; try exact I; try contradiction.
    destruct (Spec.value_of h r) as [b| |]; try exact I; try contradiction.
    cbn [bind]. now apply binary_settled.
Qed.

(** *** The text that [eval] receives *)

Lemma parse_tokens_parsed ts t :
  Spec.parse_tokens ts = Some t -> Spec.parse_expr (Spec.fuel_for ts) ts = Spec.Parsed t [].
Proof.
  unfold Spec.parse_tokens. destruct (Spec.parse_expr _ ts) as [t' [|? ?]| |]; congruence.
Qed.

Lemma fragment_follows_grammar h env s t :
  Spec.parse s = Some t ->
  Spec.plain s = true ->
  (String.length (clean_expr s) <= max_source)%nat ->
  eval_fragment h env (clean_expr s) = Spec.value_of h t.
Proof.
  unfold Spec.parse, Spec.plain. destruct (Spec.tokenize s) as [ts|] eqn:Etok; [|discriminate].
  intros Hparse Hplain Hlen. apply parse_tokens_parsed in Hparse.
  pose proof (run_chars _ _ _ Etok) as Hchars.
  unfold eval_fragment.
  replace (max_source <? String.length (clean_expr s))%nat with false
    by (symmetry; apply Nat.ltb_ge, Hlen).
  rewrite clean_expr_arithmetic by assumption.
  rewrite rejects_arithmetic by now apply replace_caret_chars.
  unfold Lexer.tokenize.
  rewrite (lexers_agree s Spec.Idle Lexer.Idle [] ts); try assumption; [|constructor|].
  - cbn [bind app]. unfold Parser.parse.
    rewrite (proj1 (parsers_agree (Spec.fuel_for ts)) _ ts t []); try assumption;
      try reflexivity.
    + cbn [bind List.map]. apply eval_python_tree.
    + unfold Parser.fuel_for, Spec.fuel_for. rewrite length_map. lia.
  - exact (proj1 (parse_keeps_apart _) _ _ _ Hparse eq_refl).
Qed.

Lemma parse_not_empty s t : Spec.parse s = Some t -> s <> "".
Proof. intros H ->. discriminate. Qed.

(** C1 (as amended): for every well-formed arithmetic expression of the
    specification's grammar (number literals, [+ - * / ^], unary minus and
    parentheses) whose integer literals have no superfluous leading zero and
    whose cleaned text is within [max_source] characters, Python's [eval]
    computes the value of the tree that the grammar assigns to the text:
    [^] binds tightest and to the right, then unary minus, then [*] and [/]
    to the left, then [+] and [-] to the left.  That value is a number or an
    exception, and [evaluate] returns the text of the number, or the error
    string of the exception. *)
Theorem evaluate_follows_grammar (h : host) (mode : AngleMode) (s : string) (t : Spec.ast) :
  Spec.parse s = Some t ->
  Spec.plain s = true ->
  (String.length (clean_expr s) <= max_source)%nat ->
  eval_fragment h (environment mode) (clean_expr s) = Spec.value_of h t /\
  Spec.value_of h t <> Outside /\
  (forall v, Spec.value_of h t = Ok v -> evaluate h mode s = handle (present h v)) /\
  (forall e, Spec.value_of h t = Raise e -> evaluate h mode s = handle (Raises e)).
Proof.
  intros Hparse Hplain Hlen.
  pose proof (fragment_follows_grammar h (environment mode) s t Hparse Hplain Hlen) as Heval.
  pose proof (value_of_settled h t) as Hsettled.
  pose proof (parse_not_empty s t Hparse) as Hs.
  destruct s as [|c r]; [congruence|].
  repeat split.
  - exact Heval.
  - intros E. now rewrite E in Hsettled.
  - intros v Hv. apply evaluate_returns. congruence.
  - intros e He. apply evaluate_raises. congruence.
Qed.

Lemma evaluate_follows_grammar_witness :
  Spec.parse "2+3*4" =
    Some (Spec.BinaryOp Spec.OpAdd (Spec.NumberLiteral "2" "" false)
            (Spec.BinaryOp Spec.OpMul (Spec.NumberLiteral "3" "" false)
               (Spec.NumberLiteral "4" "" false))) /\
  evaluate Sample.host DEG "2+3*4" = "14".
Proof.
  split; [reflexivity|].
  refine (proj1 (proj2 (proj2 (evaluate_follows_grammar Sample.host DEG "2+3*4" _ _ _ _)))
            (VInt 14) _).
  - reflexivity.
  - reflexivity.
  - vm_compute. lia.
  - reflexivity.
Defined.

(** An integer literal with a leading zero is well formed for the grammar,
    and a syntax error for Python. *)
Lemma evaluate_leading_zero_counterexample :
  Spec.parse "012+1" <> None /\
  Spec.value_of Sample.host
    (Spec.BinaryOp Spec.OpAdd (Spec.NumberLiteral "012" "" false)
       (Spec.NumberLiteral "1" "" false)) = Ok (VInt 13) /\
  evaluate Sample.host DEG "012+1" = "Error".
Proof. repeat split; [discriminate|vm_compute; reflexivity..]. Qed.

(** The text [2+3*4] on every host. *)
Lemma evaluate_two_plus_three_times_four h mode : evaluate h mode "2+3*4" = "14".
Proof.
  rewrite (evaluate_returns h mode _ _ (VInt 14)) by reflexivity.
  cbn [present]. rewrite py_str_int_small by (vm_compute; discriminate). reflexivity.
Qed.

(** *** Doubling a double *)

Lemma double_not_zero (a : float) :
  PrimFloat.eqb a 0 = false -> PrimFloat.eqb (2 * a) 0 = false.
Proof.
  rewrite !FloatAxioms.eqb_spec, FloatAxioms.mul_spec.
  pose proof (FloatAxioms.Prim2SF_valid a) as Hv.
  change (Prim2SF 2) with (S754_finite false 4503599627370496 (-51)).
  change (Prim2SF 0) with (S754_zero false).
  destruct (Prim2SF a) as [s|s| |s m e].
  - intros H. destruct s; vm_compute in H; discriminate.
  - intros _. destruct s; reflexivity.
  - intros _. reflexivity.
  - intros _. unfold SF64mul, SFmul, binary_round_aux.
    unfold valid_binary, bounded, canonical_mantissa in Hv.
    apply andb_prop in Hv as [Hc Hb]. apply Z.eqb_eq in Hc. apply Z.leb_le in Hb.
    unfold fexp, emin in Hc.
    assert (Hd : Z.pos (digits2_pos (4503599627370496 * m)) = Z.pos (digits2_pos m) + 52).
    { change (4503599627370496 * m)%positive with (Pos.iter xO m 52%positive).
      cbn [Pos.iter digits2_pos]. lia. }
    unfold shr_fexp at 1. unfold Zdigits2, fexp, emin. rewrite Hd.
    unfold prec, emax in *.
    assert (Hn : Z.max (Z.pos (digits2_pos m) + 52 + (-51 + e) - 53) (3 - 1024 - 53) - (-51 + e) = 51
              \/ Z.max (Z.pos (digits2_pos m) + 52 + (-51 + e) - 53) (3 - 1024 - 53) - (-51 + e) = 52)
      by lia.
    destruct Hn as [Hn|Hn]; rewrite Hn.
    + replace (shr (shr_record_of_loc (Z.pos (4503599627370496 * m)) loc_Exact) (-51 + e) 51)
        with ({| shr_m := Z.pos (xO m); shr_r := false; shr_s := false |}, -51 + e + 51)
        by reflexivity.
      cbn [shr_m loc_of_shr_record round_nearest_even].
      unfold shr_fexp, Zdigits2, fexp, emin. cbn [digits2_pos].
      replace (Z.max (Z.pos (Pos.succ (digits2_pos m)) + (-51 + e + 51) - 53) (3 - 1024 - 53)
               - (-51 + e + 51)) with 0 by lia.
      cbn [shr shr_record_of_loc shr_m].
      destruct (_ <=? _); destruct s; reflexivity.
    + replace (shr (shr_record_of_loc (Z.pos (4503599627370496 * m)) loc_Exact) (-51 + e) 52)
        with ({| shr_m := Z.pos m; shr_r := false; shr_s := false |}, -51 + e + 52)
        by reflexivity.
      cbn [shr_m loc_of_shr_record round_nearest_even].
      unfold shr_fexp, Zdigits2, fexp, emin.
      replace (Z.max (Z.pos (digits2_pos m) + (-51 + e + 52) - 53) (3 - 1024 - 53)
               - (-51 + e + 52)) with 0 by lia.
      cbn [shr shr_record_of_loc shr_m].
      destruct (_ <=? _); destruct s; reflexivity.
Qed.

Lemma double_zero (a : float) :
  PrimFloat.eqb a 0 = true -> PrimFloat.eqb (2 * a) 0 = true.
Proof.
  rewrite !FloatAxioms.eqb_spec, FloatAxioms.mul_spec.
  change (Prim2SF 2) with (S754_finite false 4503599627370496 (-51)).
  change (Prim2SF 0) with (S754_zero false).
  destruct (Prim2SF a) as [s|s| |s m e]; intros H.
  - now destruct s.
  - destruct s; vm_compute in H; discriminate.
  - vm_compute in H; discriminate.
  - destruct s; vm_compute in H; discriminate.
Qed.

Lemma opp_eqb_zero (x : float) : PrimFloat.eqb (- x) 0 = PrimFloat.eqb x 0.
Proof.
  rewrite !FloatAxioms.eqb_spec, FloatAxioms.opp_spec.
  change (Prim2SF 0) with (S754_zero false).
  destruct (Prim2SF x) as [s|s| |s m e]; try reflexivity; now destruct s.
Qed.

(** A negative double is finite or the negative infinity. *)
Lemma negative_finite_or_infinity (d : float) :
  PrimFloat.ltb d 0 = true ->
  F64.is_finite d = true \/
  (F64.is_finite d = false /\ PrimFloat.eqb d neg_infinity = true).
Proof.
  unfold F64.is_finite, F64.is_nan, F64.is_inf.
  rewrite FloatAxioms.ltb_spec, !FloatAxioms.eqb_spec.
  change (Prim2SF 0) with (S754_zero false).
  change (Prim2SF infinity) with (S754_infinity false).
  change (Prim2SF neg_infinity) with (S754_infinity true).
  destruct (Prim2SF d) as [s|s| |s m e]; intros H.
  - destruct s; vm_compute in H; discriminate.
  - destruct s; [right; split; reflexivity|vm_compute in H; discriminate].
  - vm_compute in H; discriminate.
  - left. unfold SFeqb. rewrite SFcompare_refl_finite. now destruct s.
Qed.

(** *** The quadratic solver on doubles *)

Lemma cmath_sqrt_negative h (d : float) :
  PrimFloat.ltb d 0 = true -> exists w, Solver.cmath_sqrt h (d, 0%float) = Ok w.
Proof.
  intros Hd. unfold Solver.cmath_sqrt.
  change (F64.is_finite 0) with true. rewrite !andb_true_r.
  destruct (negative_finite_or_infinity d Hd) as [->|[-> ->]].
  - rewrite (ltb_zero_not_zero d Hd). cbn [andb]. cbv zeta.
    destruct (PrimFloat.leb 0 d); eauto.
  - eauto.
Qed.

Lemma c_quot_real w (x : float) :
  PrimFloat.eqb x 0 = false -> exists q, c_quot w (x, 0%float) = Some q.
Proof.
  intros Hx. unfold c_quot. cbn [fst snd].
  change (PrimFloat.ltb 0 0) with false. cbv iota zeta.
  assert (Habs : PrimFloat.eqb (if PrimFloat.ltb x 0 then (- x)%float else x) 0 = false).
  { destruct (PrimFloat.ltb x 0); [now rewrite opp_eqb_zero|assumption]. }
  rewrite Habs. destruct (PrimFloat.leb _ _); [eauto|]. destruct (PrimFloat.leb _ _); eauto.
Qed.

(** [b ** 2] for a double [b] is a double, or raises. *)
Lemma float_pow_two h (b : float) :
  (exists x, float_pow h b 2 = Ok (VFloat x)) \/ (exists e, float_pow h b 2 = Raise e).
Proof.
  unfold float_pow.
  change (PrimFloat.eqb 2 0) with false. change (F64.is_nan 2) with false.
  change (F64.is_inf 2) with false. change (F64.is_integer 2) with true.
  change (F64.is_odd_integer 2) with false. cbn [negb andb]. rewrite !andb_false_r.
  cbv iota zeta.
  repeat match goal with
  | |- context [if ?c then _ else _] => destruct c
  end; eauto.
Qed.

Lemma discriminant_float h (a b c b2 : float) :
  float_pow h b 2 = Ok (VFloat b2) ->
  Solver.discriminant h (VFloat a) (VFloat b) (VFloat c) = Ok (VFloat (b2 - 4 * a * c)).
Proof.
  intros Hpow. unfold Solver.discriminant.
  change (py_pow h (VFloat b) (VInt 2)) with (float_pow h b 2). now rewrite Hpow.
Qed.

Lemma real_root_float plus (a b r : float) :
  PrimFloat.eqb (2 * a) 0 = false ->
  Solver.real_root plus (VFloat a) (VFloat b) (VFloat r) =
  Ok (VFloat ((if plus then - b + r else - b - r) / (2 * a))).
Proof.
  intros Ha. unfold Solver.real_root. cbn [py_neg bind].
  destruct plus.
  - change (py_add (VFloat (- b)) (VFloat r)) with (Ok (VFloat (- b + r))). cbn [bind].
    change (py_mul (VInt 2) (VFloat a)) with (Ok (VFloat (2 * a))). cbn [bind].
    change (py_truediv (VFloat (- b + r)) (VFloat (2 * a)))
      with (if PrimFloat.eqb (2 * a) 0 then Raise ZeroDivisionError
            else Ok (VFloat ((- b + r) / (2 * a)))).
    now rewrite Ha.
  - change (py_sub (VFloat (- b)) (VFloat r)) with (Ok (VFloat (- b - r))). cbn [bind].
    change (py_mul (VInt 2) (VFloat a)) with (Ok (VFloat (2 * a))). cbn [bind].
    change (py_truediv (VFloat (- b - r)) (VFloat (2 * a)))
      with (if PrimFloat.eqb (2 * a) 0 then Raise ZeroDivisionError
            else Ok (VFloat ((- b - r) / (2 * a)))).
    now rewrite Ha.
Qed.

Lemma half_ratio_float (a b : float) :
  Solver.half_ratio (VFloat a) (VFloat b) =
  if PrimFloat.eqb (2 * a) 0 then Raise ZeroDivisionError else Ok (VFloat (- b / (2 * a))).
Proof. reflexivity. Qed.

Lemma complex_root_float plus (a b : float) w q :
  PrimFloat.eqb (2 * a) 0 = false ->
  c_quot w (2 * a, 0)%float = Some q ->
  Solver.complex_root plus (VFloat a) (VFloat b) (VComplex (fst w) (snd w)) =
  Ok (if plus then VComplex (- b / (2 * a) + fst q) (0 + snd q)
      else VComplex (- b / (2 * a) - fst q) (0 - snd q)).
Proof.
  intros Ha Hq. unfold Solver.complex_root. rewrite half_ratio_float, Ha. cbn [bind].
  change (py_mul (VInt 2) (VFloat a)) with (Ok (VFloat (2 * a))). cbn [bind].
  change (py_truediv (VComplex (fst w) (snd w)) (VFloat (2 * a)))
    with (match c_quot (fst w, snd w) (2 * a, 0)%float with
          | Some q => Ok (VComplex (fst q) (snd q))
          | None => Raise ZeroDivisionError
          end).
  rewrite <- surjective_pairing, Hq. cbn [bind]. now destruct plus.
Qed.

Lemma math_sqrt_float (d : float) :
  math_1 PrimFloat.sqrt false (VFloat d) = Ok (VFloat (PrimFloat.sqrt d)) \/
  math_1 PrimFloat.sqrt false (VFloat d) = Raise ValueError.
Proof.
  unfold math_1. cbn [as_double bind]. cbv zeta.
  destruct (_ && _); [now right|]. destruct (_ && _); [now right|now left].
Qed.

(** C4 (as amended): for all doubles [a], [b], [c] with [a] nonzero for which
    [b ** 2] does not overflow, [solve_quadratic] computes the discriminant
    [d = b**2 - 4*a*c].  When [d < 0] is false and [math.sqrt(d)] returns,
    the result is the two real roots [(-b + sqrt d) / (2*a)] and
    [(-b - sqrt d) / (2*a)], each with two decimals, the [+] root first.
    When [d < 0], the complex square root [w] of [d] and the quotient
    [q = w / (2*a)] exist, and the result is [-b/(2*a) + q] and
    [-b/(2*a) - q], each part with two decimals.  On the integers 1, -3, 2
    the result is "2.00, 1.00". *)
Theorem solve_quadratic_roots (h : host) (a b c b2 : float) :
  PrimFloat.eqb a 0 = false ->
  float_pow h b 2 = Ok (VFloat b2) ->
  let d := (b2 - 4 * a * c)%float in
  Solver.discriminant h (VFloat a) (VFloat b) (VFloat c) = Ok (VFloat d) /\
  (PrimFloat.ltb d 0 = false ->
   math_1 PrimFloat.sqrt false (VFloat d) = Ok (VFloat (PrimFloat.sqrt d)) ->
   Solver.solve_quadratic h (VFloat a) (VFloat b) (VFloat c) =
   Ok (Dec.format_f 2 ((- b + PrimFloat.sqrt d) / (2 * a))%float ++ ", " ++
       Dec.format_f 2 ((- b - PrimFloat.sqrt d) / (2 * a))%float)) /\
  (PrimFloat.ltb d 0 = true ->
   exists w q,
     Solver.cmath_sqrt h (d, 0%float) = Ok w /\
     c_quot w (2 * a, 0)%float = Some q /\
     Solver.solve_quadratic h (VFloat a) (VFloat b) (VFloat c) =
     Ok (complex_2f (- b / (2 * a) + fst q)%float (0 + snd q)%float ++ ", " ++
         complex_2f (- b / (2 * a) - fst q)%float (0 - snd q)%float)) /\
  Solver.solve_quadratic h (VInt 1) (VInt (-3)) (VInt 2) = Ok "2.00, 1.00".
Proof.
  intros Ha Hpow d.
  pose proof (double_not_zero a Ha) as H2a.
  pose proof (discriminant_float h a b c b2 Hpow) as Hd. fold d in Hd.
  split; [exact Hd|]. split; [|split; [|reflexivity]].
  - intros Hneg Hsqrt. unfold Solver.solve_quadratic.
    rewrite Hd. cbn [bind Solver.lt_zero]. rewrite Hneg, Hsqrt. cbn [bind].
    rewrite !real_root_float by assumption. reflexivity.
  - intros Hneg.
    destruct (cmath_sqrt_negative h d Hneg) as [w Hw].
    destruct (c_quot_real w (2 * a)%float H2a) as [q Hq].
    exists w, q. split; [assumption|]. split; [assumption|].
    unfold Solver.solve_quadratic.
    rewrite Hd. cbn [bind Solver.lt_zero as_complex]. rewrite Hneg, Hw. cbn [bind].
    rewrite !(complex_root_float _ a b w q) by assumption. reflexivity.
Qed.

Lemma solve_quadratic_roots_witness :
  Solver.solve_quadratic Sample.host (VFloat 1) (VFloat (-3)) (VFloat 2) = Ok "2.00, 1.00".
Proof.
  refine (proj1 (proj2 (solve_quadratic_roots Sample.host 1 (-3) 2 9 _ _)) _ _);
    reflexivity.
Defined.

(** A coefficient whose square is out of the range of the doubles: the
    power raises, and no roots are returned. *)
Lemma solve_quadratic_overflow_counterexample :
  PrimFloat.eqb 1 0 = false /\
  Solver.solve_quadratic Sample.host (VFloat 1) (VFloat 0x1p+600) (VFloat 1) =
  Raise OverflowError.
Proof. split; vm_compute; reflexivity. Qed.

(** The complex branch on an example: [x^2 + 2 x + 5 = 0]. *)
Lemma solve_quadratic_complex_example :
  Solver.solve_quadratic Sample.host (VFloat 1) (VFloat 2) (VFloat 5) =
  Ok "-1.00+2.00j, -1.00-2.00j".
Proof. vm_compute. reflexivity. Qed.

(** C7: with a zero leading coefficient, doubles [b] and [c] whatever they
    are, [solve_quadratic] raises an exception: [ZeroDivisionError] from the
    division by [2*a] when the square and the square root are computed, the
    error of the power or of the square root otherwise.  It returns no
    classified error; [solve_linear], next to it, tests [a == 0] and returns
    "No Solution". *)
Theorem solve_quadratic_zero_a (h : host) (a b c : float) :
  PrimFloat.eqb a 0 = true ->
  (exists e, Solver.solve_quadratic h (VFloat a) (VFloat b) (VFloat c) = Raise e) /\
  (forall b2,
     float_pow h b 2 = Ok (VFloat b2) ->
     math_1 PrimFloat.sqrt false (VFloat (b2 - 4 * a * c)%float) <> Raise ValueError ->
     Solver.solve_quadratic h (VFloat a) (VFloat b) (VFloat c) = Raise ZeroDivisionError) /\
  Solver.solve_quadratic h (VInt 0) (VInt 1) (VInt 1) = Raise ZeroDivisionError /\
  Solver.solve_linear (VFloat a) (VFloat b) = Ok (VOther "No Solution").
Proof.
  intros Ha. pose proof (double_zero a Ha) as H2a.
  assert (Hmain : forall b2, float_pow h b 2 = Ok (VFloat b2) ->
            Solver.solve_quadratic h (VFloat a) (VFloat b) (VFloat c) = Raise ZeroDivisionError \/
            (math_1 PrimFloat.sqrt false (VFloat (b2 - 4 * a * c)%float) = Raise ValueError /\
             Solver.solve_quadratic h (VFloat a) (VFloat b) (VFloat c) = Raise ValueError)).
  { intros b2 Hpow. unfold Solver.solve_quadratic.
    rewrite (discriminant_float h a b c b2 Hpow). cbn [bind Solver.lt_zero].
    destruct (PrimFloat.ltb (b2 - 4 * a * c) 0) eqn:Hneg.
    - left. cbn [as_complex bind].
      destruct (cmath_sqrt_negative h _ Hneg) as [w ->]. cbn [bind].
      unfold Solver.complex_root. rewrite half_ratio_float, H2a. reflexivity.
    - destruct (math_sqrt_float (b2 - 4 * a * c)%float) as [Hs|Hs]; rewrite Hs.
      + left. cbn [bind]. unfold Solver.real_root. cbn [py_neg bind].
        change (py_add (VFloat (- b)) (VFloat (PrimFloat.sqrt (b2 - 4 * a * c))))
          with (Ok (VFloat (- b + PrimFloat.sqrt (b2 - 4 * a * c)))). cbn [bind].
        change (py_mul (VInt 2) (VFloat a)) with (Ok (VFloat (2 * a))). cbn [bind].
        change (py_truediv (VFloat (- b + PrimFloat.sqrt (b2 - 4 * a * c))) (VFloat (2 * a)))
          with (if PrimFloat.eqb (2 * a) 0 then Raise ZeroDivisionError
                else Ok (VFloat ((- b + PrimFloat.sqrt (b2 - 4 * a * c)) / (2 * a)))).
        now rewrite H2a.
      + right. split; reflexivity. }
  split; [|split; [|split]].
  - destruct (float_pow_two h b) as [[b2 Hpow]|[e Hpow]].
    + destruct (Hmain b2 Hpow) as [->|[_ ->]]; eauto.
    + exists e. unfold Solver.solve_quadratic, Solver.discriminant.
      change (py_pow h (VFloat b) (VInt 2)) with (float_pow h b 2). now rewrite Hpow.
  - intros b2 Hpow Hsqrt. destruct (Hmain b2 Hpow) as [->|[Hs _]]; [reflexivity|contradiction].
  - reflexivity.
  - unfold Solver.solve_linear. cbn [Solver.eq_zero bind]. now rewrite Ha.
Qed.

Lemma solve_quadratic_zero_a_witness :
  exists e, Solver.solve_quadratic Sample.host (VFloat 0) (VFloat 1) (VFloat 1) = Raise e.
Proof.
  exact (proj1 (solve_quadratic_zero_a Sample.host 0 1 1 eq_refl)).
Defined.

(** ** The controller *)

Lemma special_cases char :
  special char = false ->
  String.eqb char "C" = false /\ String.eqb char App.label_backspace = false /\
  String.eqb char "=" = false /\ String.eqb char "DEG" = false /\
  String.eqb char App.label_plus_minus = false.
Proof.
  unfold special. intros H.
  repeat (apply orb_false_elim in H as [H ?]). auto.
Qed.

Lemma click_typed h lo st char :
  special char = false ->
  App.on_button_click h lo st char =
  App._update_display
    (if App.is_result_shown st && App.contains char "0123456789."
     then App.set_expression st char false
     else App.set_expression st (App.current_expression st ++ typed char) false).
Proof.
  intros H. destruct (special_cases char H) as (H1 & H2 & H3 & H4 & H5).
  unfold App.on_button_click. rewrite H1, H2, H3, H4, H5.
  now destruct (_ && _).
Qed.

Lemma all_continuation_app a b :
  App.all_continuation (a ++ b) = App.all_continuation a && App.all_continuation b.
Proof.
  induction a as [|c a IH]; [reflexivity|].
  change (String c a ++ b) with (String c (a ++ b)). cbn [App.all_continuation].
  now rewrite IH, andb_assoc.
Qed.

Lemma drop_last_app s char :
  one_character char = true -> App.drop_last (s ++ char) = s.
Proof.
  intros Hc. destruct char as [|c r]; [discriminate|].
  apply andb_prop in Hc as [Hlead Hrest]. apply negb_true_iff in Hlead.
  induction s as [|d s IH].
  - change ("" ++ String c r) with (String c r). cbn [App.drop_last]. now rewrite Hrest.
  - change (String d s ++ String c r) with (String d (s ++ String c r)).
    cbn [App.drop_last]. rewrite all_continuation_app. cbn [App.all_continuation].
    rewrite Hlead, andb_false_r. now rewrite IH.
Qed.

Lemma one_character_typed char :
  one_character char = true -> typed char = char.
Proof.
  unfold typed. destruct (String.eqb_spec char App.label_squared) as [->|]; [discriminate|trivial].
Qed.

(** The backspace takes back a typed character.  From a state that
    shows no result, a button of one character that is typed, followed by
    the backspace, leaves the expression as it was, and the display shows
    it. *)
Theorem backspace_undoes_character (h : host) (lo : string -> option (string * string))
    (st : App.state) (char : string) :
  App.is_result_shown st = false ->
  one_character char = true ->
  special char = false ->
  let st' := App.on_button_click h lo (App.on_button_click h lo st char) App.label_backspace in
  App.current_expression st' = App.current_expression st /\
  App.lbl_display st' = shown (App.current_expression st) /\
  App.engine_history st' = App.engine_history st /\
  App.engine_angle_mode st' = App.engine_angle_mode st.
Proof.
  intros Hshown Hone Hspecial st'. subst st'.
  rewrite (click_typed h lo st char Hspecial), Hshown. cbn [andb].
  rewrite (one_character_typed char Hone).
  unfold App.on_button_click.
  change (String.eqb App.label_backspace "C") with false.
  change (String.eqb App.label_backspace App.label_backspace) with true.
  cbn [App._update_display App.set_expression App.current_expression App.lbl_display
       App.engine_history App.engine_angle_mode App.is_result_shown].
  rewrite (drop_last_app _ char Hone). now destruct (App.current_expression st).
Qed.

Lemma backspace_undoes_character_witness :
  App.current_expression
    (App.on_button_click Sample.host (fun _ => None)
       (App.on_button_click Sample.host (fun _ => None)
          (App.set_expression App.initial "2+" false) glyph_times)
       App.label_backspace) = "2+".
Proof.
  exact (proj1 (backspace_undoes_character Sample.host (fun _ => None)
                  (App.set_expression App.initial "2+" false) glyph_times
                  eq_refl eq_refl eq_refl)).
Defined.

(** A button of several characters is taken back one character at a time:
    after [sin], the backspace leaves [si]. *)
Lemma backspace_after_sin h lo :
  App.current_expression
    (App.on_button_click h lo (App.on_button_click h lo App.initial "sin")
       App.label_backspace) = "si".
Proof. reflexivity. Qed.

Lemma click_plus_minus h lo st :
  App.on_button_click h lo st App.label_plus_minus =
  App._update_display
    (App.set_expression st
       match App.current_expression st with
       | String "-" rest => rest
       | text => "-" ++ text
       end
       (App.is_result_shown st)).
Proof. reflexivity. Qed.

Lemma update_display_current st : display_current (App._update_display st).
Proof.
  unfold display_current, shown. cbn [App._update_display App.lbl_display App.current_expression].
  now destruct (App.current_expression st).
Qed.

(** The sign button pressed twice restores the expression, unless the
    expression starts with two minus signs: then both presses remove one.
    Nothing else changes but the display, which shows the expression. *)
Theorem plus_minus_twice (h : host) (lo : string -> option (string * string))
    (st : App.state) :
  let st' :=
    App.on_button_click h lo (App.on_button_click h lo st App.label_plus_minus)
      App.label_plus_minus in
  (double_minus (App.current_expression st) = false ->
   App.current_expression st' = App.current_expression st) /\
  (forall rest, App.current_expression st = "--" ++ rest ->
   App.current_expression st' = rest) /\
  App.lbl_display st' = shown (App.current_expression st') /\
  App.is_result_shown st' = App.is_result_shown st /\
  App.engine_history st' = App.engine_history st /\
  App.engine_angle_mode st' = App.engine_angle_mode st.
Proof.
  intros st'. subst st'. rewrite !click_plus_minus.
  split; [|split; [|split; [|split; [|split]]]]; try reflexivity.
  3: exact (update_display_current _).
  - cbn [App._update_display App.set_expression App.current_expression].
    destruct (App.current_expression st) as [|c r]; [reflexivity|].
    destruct (Ascii.eqb_spec c "-") as [->|Hc].
    + destruct r as [|d r]; [reflexivity|].
      destruct (Ascii.eqb_spec d "-") as [->|Hd]; [discriminate|]. intros _.
      destruct d as [[] [] [] [] [] [] [] []]; try reflexivity; congruence.
    + intros _. destruct c as [[] [] [] [] [] [] [] []]; try reflexivity; congruence.
  - intros rest Hrest.
    cbn [App._update_display App.set_expression App.current_expression].
    now rewrite Hrest.
Qed.

(** The sign button on an expression that starts with [--]. *)
Lemma plus_minus_double_minus h lo :
  App.current_expression
    (App.on_button_click h lo
       (App.on_button_click h lo (App.set_expression App.initial "--5" false)
          App.label_plus_minus)
       App.label_plus_minus) = "5".
Proof. reflexivity. Qed.

(** ** The angle mode *)

Lemma click_angle_mode h lo st char :
  App.engine_angle_mode (App.on_button_click h lo st char) =
  if String.eqb char "DEG" then RAD else App.engine_angle_mode st.
Proof.
  unfold App.on_button_click.
  destruct (String.eqb_spec char "C") as [->|_]; [reflexivity|].
  destruct (String.eqb_spec char App.label_backspace) as [->|_]; [reflexivity|].
  destruct (String.eqb_spec char "=") as [->|_]; [reflexivity|].
  destruct (String.eqb char "DEG"); [reflexivity|].
  destruct (String.eqb char App.label_plus_minus); [reflexivity|].
  now destruct (_ && _).
Qed.

(** The [DEG] button switches the engine to radians, and no button switches
    it back: after a run of clicks the mode is [RAD] if [DEG] is among them,
    and the mode of the start otherwise. *)
Theorem angle_mode_one_way (h : host) (lo : string -> option (string * string))
    (chars : list string) (st : App.state) :
  App.engine_angle_mode (App.clicks h lo st chars) =
  if existsb (String.eqb "DEG") chars then RAD else App.engine_angle_mode st.
Proof.
  unfold App.clicks. revert st.
  induction chars as [|c chars IH]; intros st; [reflexivity|].
  cbn [fold_left existsb]. rewrite IH, click_angle_mode, (String.eqb_sym "DEG" c).
  destruct (String.eqb c "DEG"); cbn [orb]; [now destruct (existsb _ _)|reflexivity].
Qed.

(** ** The display *)

Lemma click_display_current h lo st char :
  display_current st -> display_current (App.on_button_click h lo st char).
Proof.
  intros Hst. unfold App.on_button_click.
  repeat match goal with
  | |- display_current (if ?b then _ else _) => destruct b
  | |- display_current (App._update_display _) => apply update_display_current
  | |- display_current (App._calculate_result _ _ _) => apply update_display_current
  end.
  exact Hst.
Qed.

(** After every run of clicks from the start of the application the display
    shows the current expression, or [0] when the expression is empty: it is
    never blank. *)
Theorem display_follows_expression (h : host) (lo : string -> option (string * string))
    (chars : list string) :
  let st := App.clicks h lo App.initial chars in
  App.lbl_display st = shown (App.current_expression st) /\ App.lbl_display st <> "".
Proof.
  intros st.
  assert (H : display_current st).
  { subst st. unfold App.clicks.
    assert (Hinit : display_current App.initial) by reflexivity.
    revert Hinit. generalize App.initial.
    induction chars as [|c chars IH]; intros s Hs; [exact Hs|].
    cbn [fold_left]. apply IH, click_display_current, Hs. }
  split; [exact H|]. rewrite H. now destruct (App.current_expression st).
Qed.

(** ** Typing an expression *)

Lemma str_app_assoc (a b c : string) : (a ++ b) ++ c = a ++ (b ++ c).
Proof.
  induction a as [|x a IH]; [reflexivity|].
  change ((String x a ++ b) ++ c) with (String x ((a ++ b) ++ c)).
  change (String x a ++ (b ++ c)) with (String x (a ++ (b ++ c))). now rewrite IH.
Qed.

Lemma str_app_empty (a : string) : a ++ "" = a.
Proof.
  induction a as [|x a IH]; [reflexivity|].
  change (String x a ++ "") with (String x (a ++ "")). now rewrite IH.
Qed.

Lemma run_typed h lo chars : forall st,
  App.is_result_shown st = false ->
  forallb (fun char => negb (special char)) chars = true ->
  App.clicks h lo st chars =
  match chars with
  | [] => st
  | _ => App._update_display
           (App.set_expression st (App.current_expression st ++ typed_text chars) false)
  end.
Proof.
  unfold App.clicks.
  induction chars as [|c chars IH]; intros st Hst Hchars; [reflexivity|].
  cbn [forallb] in Hchars. apply andb_prop in Hchars as [Hc Hchars].
  apply negb_true_iff in Hc.
  cbn [fold_left]. rewrite (click_typed h lo st c Hc), Hst. cbn [andb].
  rewrite IH by (assumption || reflexivity).
  destruct chars as [|d chars].
  - cbn [typed_text fold_right]. now rewrite str_app_empty.
  - cbn [App._update_display App.set_expression App.current_expression
         App.is_result_shown App.engine_angle_mode App.engine_history App.lbl_display
         App.lbl_history App.lbl_bin App.lbl_hex App.dialogs].
    change (typed_text (c :: d :: chars)) with (typed c ++ typed_text (d :: chars)).
    now rewrite str_app_assoc.
Qed.

Lemma click_equals h lo st :
  App.on_button_click h lo st "=" = App._calculate_result h lo st.
Proof. reflexivity. Qed.

(** Typing an expression and pressing [=]: from a state with an empty
    expression and no result shown, a run of typed buttons followed by [=]
    leaves the result of [evaluate] on the text typed as the expression, and
    on the display ([0] for an empty result); [x] squared types [^2]. *)
Theorem typing_then_equals (h : host) (lo : string -> option (string * string))
    (st : App.state) (chars : list string) :
  App.current_expression st = "" ->
  App.is_result_shown st = false ->
  forallb (fun char => negb (special char)) chars = true ->
  let st' := App.clicks h lo st (chars ++ ["="]) in
  let result := evaluate h (App.engine_angle_mode st) (typed_text chars) in
  App.current_expression st' = result /\
  App.lbl_display st' = shown result /\
  App.is_result_shown st' = true.
Proof.
  intros Hexpr Hshown Hchars st' result. subst st' result.
  unfold App.clicks. rewrite fold_left_app. fold (App.clicks h lo st chars).
  rewrite (run_typed h lo chars st Hshown Hchars), Hexpr.
  cbn [fold_left]. rewrite click_equals.
  change ("" ++ typed_text chars) with (typed_text chars).
  assert (Hsame : match chars with
                  | [] => st
                  | _ => App._update_display (App.set_expression st (typed_text chars) false)
                  end =
                  App._update_display (App.set_expression st (typed_text chars) false)
                  \/ chars = []).
  { destruct chars; [now right|now left]. }
  destruct Hsame as [->| ->].
  - repeat split; try exact (update_display_current _).
  - cbn [typed_text fold_right]. unfold App._calculate_result. rewrite Hexpr.
    repeat split; try exact (update_display_current _).
Qed.

Lemma typing_then_equals_witness :
  App.lbl_display
    (App.clicks Sample.host (fun _ => None) App.initial
       (["3"; App.label_squared; glyph_times; "2"] ++ ["="])) = "18".
Proof.
  exact (proj1 (proj2 (typing_then_equals Sample.host (fun _ => None) App.initial
                         ["3"; App.label_squared; glyph_times; "2"]
                         eq_refl eq_refl eq_refl))).
Defined.

(** After a result, a digit or a point starts a new expression, and any
    other typed button goes on from the result. *)
Theorem typing_after_result (h : host) (lo : string -> option (string * string))
    (st : App.state) (char : string) :
  special char = false ->
  let st' := App.on_button_click h lo (App.on_button_click h lo st "=") char in
  let result := evaluate h (App.engine_angle_mode st) (App.current_expression st) in
  App.current_expression st' =
    (if App.contains char "0123456789." then char else result ++ typed char) /\
  App.is_result_shown st' = false /\
  App.engine_history st' = App.engine_history (App.on_button_click h lo st "=").
Proof.
  intros Hspecial st' result. subst st' result.
  rewrite (click_typed h lo _ char Hspecial), click_equals.
  unfold App._calculate_result.
  cbn [App._update_display App.is_result_shown andb].
  destruct (App.contains char "0123456789."); repeat split.
Qed.

Lemma typing_after_result_witness :
  App.current_expression
    (App.on_button_click Sample.host (fun _ => None)
       (App.on_button_click Sample.host (fun _ => None)
          (App.set_expression App.initial "2+3" false) "=") "+") = "5+".
Proof.
  exact (proj1 (typing_after_result Sample.host (fun _ => None)
                  (App.set_expression App.initial "2+3" false) "+" eq_refl)).
Defined.

(** ** The history *)

Lemma click_history h lo st char :
  App.engine_history (App.on_button_click h lo st char) =
  if String.eqb char "=" then
    let result := evaluate h (App.engine_angle_mode st) (App.current_expression st) in
    if String.eqb result "Error" then App.engine_history st
    else (App.engine_history st ++ [(App.current_expression st ++ " = " ++ result)%string])%list
  else App.engine_history st.
Proof.
  unfold App.on_button_click.
  destruct (String.eqb_spec char "C") as [->|_]; [reflexivity|].
  destruct (String.eqb_spec char App.label_backspace) as [->|_]; [reflexivity|].
  destruct (String.eqb char "=").
  - unfold App._calculate_result. cbn [App._update_display App.engine_history].
    now destruct (String.eqb _ "Error").
  - destruct (String.eqb char "DEG"); [reflexivity|].
    destruct (String.eqb char App.label_plus_minus); [reflexivity|].
    now destruct (_ && _).
Qed.

(** The history only grows: after a run of clicks it is the history of the
    start followed by new entries, each an expression, [" = "] and a result
    other than ["Error"]. *)
Theorem history_only_grows (h : host) (lo : string -> option (string * string))
    (chars : list string) (st : App.state) :
  exists added,
    App.engine_history (App.clicks h lo st chars) = (App.engine_history st ++ added)%list /\
    Forall history_entry added.
Proof.
  unfold App.clicks. revert st.
  induction chars as [|c chars IH]; intros st.
  - exists []. split; [now rewrite app_nil_r|constructor].
  - cbn [fold_left]. destruct (IH (App.on_button_click h lo st c)) as (added & Heq & Hall).
    rewrite Heq, click_history.
    destruct (String.eqb c "="); [|eauto]. cbv zeta.
    destruct (String.eqb_spec (evaluate h (App.engine_angle_mode st) (App.current_expression st))
                "Error") as [_|Hne]; [eauto|].
    eexists (_ :: added). split; [now rewrite <- app_assoc|].
    constructor; [|assumption]. unfold history_entry. eauto.
Qed.

Lemma evaluate_of_raise h mode expression e :
  expression <> "" ->
  py_eval h (environment mode) (clean_expr expression) = Raises e ->
  evaluate h mode expression =
  match e with ZeroDivisionError => "Error: Div by 0" | _ => "Error" end.
Proof.
  intros Hne Hev. destruct expression as [|c r]; [congruence|].
  rewrite evaluate_nonempty. unfold attempt. rewrite Hev. now destruct e.
Qed.

(** What [=] records.  A division by zero is recorded with its message, as
    a result is; any other failure is not recorded and leaves the label of
    the last calculation as it was; on an empty expression [=] records the
    entry [" = "] and shows [0]. *)
Theorem equals_records (h : host) (lo : string -> option (string * string))
    (st : App.state) :
  let st' := App.on_button_click h lo st "=" in
  let expression := App.current_expression st in
  (forall e, expression <> "" ->
     py_eval h (environment (App.engine_angle_mode st)) (clean_expr expression) = Raises e ->
     match e with
     | ZeroDivisionError =>
         App.engine_history st' =
           (App.engine_history st ++ [(expression ++ " = Error: Div by 0")%string])%list /\
         App.lbl_history st' = expression ++ " =" /\
         App.lbl_display st' = "Error: Div by 0"
     | _ =>
         App.engine_history st' = App.engine_history st /\
         App.lbl_history st' = App.lbl_history st /\
         App.lbl_display st' = "Error"
     end) /\
  (expression = "" ->
     App.engine_history st' = (App.engine_history st ++ [" = "])%list /\
     App.lbl_display st' = "0" /\ App.is_result_shown st' = true).
Proof.
  intros st' expression. subst st' expression. rewrite click_equals. split.
  - intros e Hne Hev. unfold App._calculate_result.
    rewrite (evaluate_of_raise h _ _ e Hne Hev).
    destruct e; repeat split.
  - intros Hexpr. unfold App._calculate_result. rewrite Hexpr. repeat split.
Qed.

(** ** The history dialog *)

Lemma concat_not_empty sep (l : list string) :
  l <> [] -> Forall (fun entry => entry <> "") l -> String.concat sep l <> "".
Proof.
  intros Hl Hall. destruct l as [|x l]; [congruence|].
  apply Forall_cons_1 in Hall as [Hx _].
  destruct x as [|c x]; [congruence|]. destruct l; discriminate.
Qed.

Lemma history_entries_not_empty h lo chars : forall st,
  Forall (fun entry => entry <> "") (App.engine_history st) ->
  Forall (fun entry => entry <> "") (App.engine_history (App.clicks h lo st chars)).
Proof.
  unfold App.clicks.
  induction chars as [|c chars IH]; intros st Hst; [exact Hst|].
  cbn [fold_left]. apply IH. rewrite click_history.
  destruct (String.eqb c "="); [|exact Hst]. cbv zeta.
  destruct (String.eqb _ "Error"); [exact Hst|].
  apply Forall_app. split; [exact Hst|]. constructor; [|constructor].
  destruct (App.current_expression st); discriminate.
Qed.

Lemma last_entries_suffix n (l : list string) :
  exists older, l = (older ++ App.last_entries n l)%list /\
  List.length (App.last_entries n l) = Nat.min n (List.length l).
Proof.
  unfold App.last_entries. exists (firstn (List.length l - n) l).
  split; [now rewrite firstn_skipn|]. rewrite length_skipn. lia.
Qed.

(** [toggle_history] after a run of clicks from the start of the
    application: the dialog says "No history yet." exactly when nothing was
    recorded, and otherwise shows the latest entries, ten at most, one per
    line, oldest first. *)
Theorem history_dialog (h : host) (lo : string -> option (string * string))
    (chars : list string) :
  let st := App.clicks h lo App.initial chars in
  let recent := App.last_entries 10 (App.engine_history st) in
  App.dialogs (App.toggle_history st) =
    (App.dialogs st ++
     [("Calculation History",
       match App.engine_history st with
       | [] => "No history yet."
       | _ => App.joined_history recent
       end)])%list /\
  (exists older, App.engine_history st = (older ++ recent)%list) /\
  List.length recent = Nat.min 10 (List.length (App.engine_history st)).
Proof.
  intros st recent.
  destruct (last_entries_suffix 10 (App.engine_history st)) as (older & Hsplit & Hlen).
  fold recent in Hsplit, Hlen.
  split; [|split; [eauto|exact Hlen]].
  unfold App.toggle_history. cbn [App.dialogs]. fold recent. f_equal. f_equal. f_equal.
  pose proof (history_entries_not_empty h lo chars App.initial (List.Forall_nil _)) as Hall.
  fold st in Hall.
  destruct (App.engine_history st) as [|x l] eqn:Ehist; [reflexivity|].
  assert (Hne : App.joined_history recent <> "").
  { apply concat_not_empty.
    - intros Hnil. rewrite Hnil in Hlen. cbn in Hlen. lia.
    - rewrite Hsplit in Hall. now apply Forall_app in Hall as [_ Hall]. }
  now destruct (App.joined_history recent).
Qed.

(** ** The labels of the programmer tab *)

Lemma all_digits_numeral s : App.all_digits s = true -> numeral s = true.
Proof.
  induction s as [|c r IH]; [reflexivity|]. cbn [App.all_digits numeral].
  intros H. apply andb_prop in H as [Hc Hr]. now rewrite Hc, IH.
Qed.

Lemma remove_point_numeral s :
  App.all_digits (App.remove_first "." s) = true -> numeral s = true.
Proof.
  induction s as [|c r IH]; [reflexivity|]. cbn [App.remove_first numeral].
  destruct (Ascii.eqb c ".").
  - intros H. rewrite orb_true_r. now apply all_digits_numeral.
  - cbn [App.all_digits]. intros H. apply andb_prop in H as [Hc Hr]. now rewrite Hc, IH.
Qed.

Lemma programmer_labels_numeral lo result :
  App.is_ascii result = true ->
  result = "" \/ numeral result = false ->
  App.programmer_labels lo result = None.
Proof.
  intros Hascii H. unfold App.programmer_labels. rewrite Hascii. cbn [negb].
  destruct H as [->|H]; [reflexivity|].
  destruct (App.remove_first "." result) as [|c r] eqn:E; [reflexivity|].
  destruct (App.all_digits (String c r)) eqn:Ed; [|reflexivity].
  rewrite <- E in Ed. apply remove_point_numeral in Ed. congruence.
Qed.

Lemma click_equals_labels h lo st :
  let result := evaluate h (App.engine_angle_mode st) (App.current_expression st) in
  App.programmer_labels lo result = None ->
  App.lbl_bin (App.on_button_click h lo st "=") = App.lbl_bin st /\
  App.lbl_hex (App.on_button_click h lo st "=") = App.lbl_hex st.
Proof.
  intros result H. rewrite click_equals. unfold App._calculate_result.
  cbn [App._update_display App.lbl_bin App.lbl_hex]. fold result. now rewrite H.
Qed.

(** The labels BIN and HEX follow only a result written with digits and at
    most one point.  A result of other characters (a minus sign, an
    exponent, a complex number) leaves them as they were, and so does every
    failed evaluation: the programmer tab goes on showing the number of an
    earlier calculation. *)
Theorem programmer_labels_kept (h : host) (lo : string -> option (string * string))
    (st : App.state) :
  let st' := App.on_button_click h lo st "=" in
  let result := evaluate h (App.engine_angle_mode st) (App.current_expression st) in
  (App.is_ascii result = true -> numeral result = false ->
   App.lbl_bin st' = App.lbl_bin st /\ App.lbl_hex st' = App.lbl_hex st) /\
  (forall e,
     App.current_expression st <> "" ->
     py_eval h (environment (App.engine_angle_mode st))
       (clean_expr (App.current_expression st)) = Raises e ->
     App.lbl_bin st' = App.lbl_bin st /\ App.lbl_hex st' = App.lbl_hex st).
Proof.
  intros st' result. split.
  - intros Hascii Hnum. apply click_equals_labels.
    apply programmer_labels_numeral; [assumption|now right].
  - intros e Hne Hev. apply click_equals_labels.
    rewrite (evaluate_of_raise h _ _ e Hne Hev).
    apply programmer_labels_numeral; destruct e; (reflexivity || now right).
Qed.

(** After [14], the result [-4] leaves the labels at [14]. *)
Lemma programmer_labels_after_negative :
  let st := App.clicks Sample.host (fun _ => None) App.initial
              ["1"; "4"; "="; "2"; "-"; "6"; "="] in
  App.current_expression st = "-4" /\ App.lbl_bin st = "BIN: 1110" /\ App.lbl_hex st = "HEX: E".
Proof. vm_compute. repeat split. Qed.

(** ** The loan calculator *)

Lemma zero_shape (x : float) :
  PrimFloat.eqb x 0 = true -> exists s, Prim2SF x = S754_zero s.
Proof.
  rewrite FloatAxioms.eqb_spec. change (Prim2SF 0) with (S754_zero false).
  destruct (Prim2SF x) as [s|s| |s m e]; intros H.
  - eauto.
  - destruct s; vm_compute in H; discriminate.
  - vm_compute in H; discriminate.
  - destruct s; vm_compute in H; discriminate.
Qed.

Lemma zero_over_1200 (x : float) :
  PrimFloat.eqb x 0 = true -> PrimFloat.eqb (x / 1200) 0 = true.
Proof.
  intros Hx. destruct (zero_shape x Hx) as [s Hs].
  rewrite FloatAxioms.eqb_spec, FloatAxioms.div_spec, Hs. now destruct s.
Qed.

Lemma zero_times_12 (x : float) :
  PrimFloat.eqb x 0 = true -> PrimFloat.eqb (x * 12) 0 = true.
Proof.
  intros Hx. destruct (zero_shape x Hx) as [s Hs].
  rewrite FloatAxioms.eqb_spec, FloatAxioms.mul_spec, Hs. now destruct s.
Qed.

Lemma one_plus_zero (r : float) : PrimFloat.eqb r 0 = true -> (1 + r)%float = 1%float.
Proof.
  intros Hr. destruct (zero_shape r Hr) as [s Hs].
  apply FloatAxioms.Prim2SF_inj. rewrite FloatAxioms.add_spec, Hs. now destruct s.
Qed.

Lemma float_pow_one h (n : float) : float_pow h 1 n = Ok (VFloat 1).
Proof.
  unfold float_pow.
  change (F64.is_nan 1) with false. change (F64.is_inf 1) with false.
  change (PrimFloat.eqb 1 1) with true. change (PrimFloat.eqb 1 0) with false.
  change (PrimFloat.ltb 1 0) with false. change (PrimFloat.eqb (abs 1) 1) with true.
  cbn [andb]. cbv zeta. change (PrimFloat.eqb 1 1) with true.
  repeat match goal with
  | |- context [if ?c then _ else _] => destruct c
  end; reflexivity.
Qed.

Lemma float_pow_zero_exponent h (x n : float) :
  PrimFloat.eqb n 0 = true -> float_pow h x n = Ok (VFloat 1).
Proof. intros Hn. unfold float_pow. now rewrite Hn. Qed.

(** The formula divides by zero when the monthly rate or the number of
    months is zero. *)
Lemma emi_zero h (p r n : float) :
  PrimFloat.eqb r 0 = true \/ PrimFloat.eqb n 0 = true ->
  App.emi h p (VFloat r) (VFloat n) = Raise ZeroDivisionError.
Proof.
  intros H. unfold App.emi.
  change (py_mul (VFloat p) (VFloat r)) with (Ok (VFloat (p * r))). cbn [bind].
  change (py_add (VInt 1) (VFloat r)) with (Ok (VFloat (1 + r))). cbn [bind].
  change (py_pow h (VFloat (1 + r)) (VFloat n)) with (float_pow h (1 + r) n).
  assert (Hpow : float_pow h (1 + r) n = Ok (VFloat 1)).
  { destruct H as [Hr|Hn].
    - rewrite (one_plus_zero r Hr). apply float_pow_one.
    - now apply float_pow_zero_exponent. }
  rewrite Hpow. cbn [bind]. reflexivity.
Qed.

(** A loan at the rate zero, or over no time at all, has no instalment for
    [calc_emi]: with three numbers in the fields, a rate or a time equal to
    zero gives "Error: Check Input", whatever the principal. *)
Theorem calc_emi_zero_rate_or_time (h : host) (float_of_text : string -> res float)
    (principal rate years : string) (p rt y : float) :
  float_of_text principal = Ok p ->
  float_of_text rate = Ok rt ->
  float_of_text years = Ok y ->
  PrimFloat.eqb rt 0 = true \/ PrimFloat.eqb y 0 = true ->
  App.calc_emi h float_of_text principal rate years = Ok "Error: Check Input".
Proof.
  intros Hp Hrt Hy Hzero. unfold App.calc_emi. rewrite Hp, Hrt. cbn [bind].
  change (py_truediv (VFloat rt) (VInt (12 * 100))) with (Ok (VFloat (rt / 1200))).
  cbn [bind]. rewrite Hy. cbn [bind].
  change (py_mul (VFloat y) (VInt 12)) with (Ok (VFloat (y * 12))). cbn [bind].
  rewrite emi_zero; [reflexivity|].
  destruct Hzero as [H|H]; [left; now apply zero_over_1200|right; now apply zero_times_12].
Qed.

Lemma calc_emi_zero_rate_or_time_witness :
  App.calc_emi Sample.host (fun s => Ok (App.float_of_decimal_text s)) "1000" "0" "5" =
  Ok "Error: Check Input".
Proof.
  refine (calc_emi_zero_rate_or_time Sample.host _ "1000" "0" "5" _ _ _ eq_refl eq_refl eq_refl _).
  left. reflexivity.
Defined.

(** A loan of 1000 at 12 percent over one year. *)
Lemma calc_emi_example :
  App.calc_emi Sample.host (fun s => Ok (App.float_of_decimal_text s)) "1000" "12" "1" =
  Ok "Monthly EMI: 88.85".
Proof. vm_compute. reflexivity. Qed.

(** ** The quadratic solver of the algebra tab *)

Lemma quadratic_zero_a_raises h (a b c : float) :
  PrimFloat.eqb a 0 = true ->
  exists e, Solver.solve_quadratic h (VFloat a) (VFloat b) (VFloat c) = Raise e.
Proof.
  intros Ha. pose proof (double_zero a Ha) as H2a.
  destruct (float_pow_two h b) as [[b2 Hpow]|[e Hpow]].
  - unfold Solver.solve_quadratic.
    rewrite (discriminant_float h a b c b2 Hpow). cbn [bind Solver.lt_zero].
    destruct (PrimFloat.ltb (b2 - 4 * a * c) 0) eqn:Hneg.
    + cbn [as_complex bind].
      destruct (cmath_sqrt_negative h _ Hneg) as [w ->]. cbn [bind].
      unfold Solver.complex_root. rewrite half_ratio_float, H2a. eauto.
    + destruct (math_sqrt_float (b2 - 4 * a * c)%float) as [Hs|Hs]; rewrite Hs; [|eauto].
      cbn [bind]. unfold Solver.real_root. cbn [py_neg bind].
      change (py_add (VFloat (- b)) (VFloat (PrimFloat.sqrt (b2 - 4 * a * c))))
        with (Ok (VFloat (- b + PrimFloat.sqrt (b2 - 4 * a * c)))). cbn [bind].
      change (py_mul (VInt 2) (VFloat a)) with (Ok (VFloat (2 * a))). cbn [bind].
      change (py_truediv (VFloat (- b + PrimFloat.sqrt (b2 - 4 * a * c))) (VFloat (2 * a)))
        with (if PrimFloat.eqb (2 * a) 0 then Raise ZeroDivisionError
              else Ok (VFloat ((- b + PrimFloat.sqrt (b2 - 4 * a * c)) / (2 * a)))).
      rewrite H2a. eauto.
  - exists e. unfold Solver.solve_quadratic, Solver.discriminant.
    change (py_pow h (VFloat b) (VInt 2)) with (float_pow h b 2). now rewrite Hpow.
Qed.

(** The algebra tab with a leading coefficient that is zero: whatever the
    other two numbers, the exception of [solve_quadratic] is taken by the
    bare [except] and the label reads "Invalid Input"; so does a field that
    is no number. *)
Theorem solve_zero_a (h : host) (float_of_text : string -> res float)
    (a b c : string) (x y z : float) :
  float_of_text a = Ok x ->
  float_of_text b = Ok y ->
  float_of_text c = Ok z ->
  PrimFloat.eqb x 0 = true ->
  App.solve h float_of_text a b c = Ok "Invalid Input".
Proof.
  intros Ha Hb Hc Hx. unfold App.solve. rewrite Ha, Hb, Hc. cbn [bind].
  destruct (quadratic_zero_a_raises h x y z Hx) as [e ->]. reflexivity.
Qed.

Lemma solve_zero_a_witness :
  App.solve Sample.host (fun s => Ok (App.float_of_decimal_text s)) "0" "2" "1" =
  Ok "Invalid Input".
Proof.
  refine (solve_zero_a Sample.host _ "0" "2" "1" _ _ _ eq_refl eq_refl eq_refl _).
  reflexivity.
Defined.

(** ** The themes *)

Lemma known_theme_cases name :
  known_theme name = true -> name = "Dark" \/ name = "Light" \/ name = "Neon".
Proof.
  unfold known_theme, Theme.THEMES. cbn [Theme.lookup].
  destruct (String.eqb_spec "Dark" name) as [<-|_]; [auto|].
  destruct (String.eqb_spec "Light" name) as [<-|_]; [auto|].
  destruct (String.eqb_spec "Neon" name) as [<-|_]; [auto|discriminate].
Qed.

Lemma unknown_theme_cases name :
  known_theme name = false ->
  Theme.lookup name Theme.THEMES = None /\
  Theme.index_of name (map fst Theme.THEMES) = None.
Proof.
  unfold known_theme, Theme.THEMES. cbn [Theme.lookup Theme.index_of map fst].
  destruct (String.eqb "Dark" name); [discriminate|].
  destruct (String.eqb "Light" name); [discriminate|].
  destruct (String.eqb "Neon" name); [discriminate|]. auto.
Qed.

(** [cycle_theme] on a manager whose theme is one of [THEMES]: the theme
    becomes the next of Dark, Light, Neon, Dark, ..., its name is returned,
    the root takes the main background of its palette, and three calls come
    back to the theme of the start. *)
Theorem cycle_theme_order (m : Theme.manager) :
  known_theme (Theme.current_theme m) = true ->
  let next := next_theme (Theme.current_theme m) in
  snd (Theme.cycle_theme m) = inl next /\
  Theme.current_theme (fst (Theme.cycle_theme m)) = next /\
  known_theme next = true /\
  Theme.get_color (fst (Theme.cycle_theme m)) "bg_main" =
    inl (Some (Theme.root_bg (fst (Theme.cycle_theme m)))) /\
  Theme.current_theme
    (fst (Theme.cycle_theme (fst (Theme.cycle_theme (fst (Theme.cycle_theme m)))))) =
  Theme.current_theme m.
Proof.
  intros Hknown next. subst next.
  destruct m as [name bg use conf maps]. cbn [Theme.current_theme] in *.
  destruct (known_theme_cases name Hknown) as [->|[->| ->]]; repeat split.
Qed.

Lemma cycle_theme_order_witness :
  snd (Theme.cycle_theme (fst Theme.init)) = inl "Light".
Proof. exact (proj1 (cycle_theme_order (fst Theme.init) eq_refl)). Defined.

(** [apply_theme] with a name that [THEMES] lacks raises [KeyError] after
    it has stored the name: nothing else of the manager changes, and from
    then on [get_color] raises [KeyError] for every key and [cycle_theme]
    raises [ValueError] and changes nothing. *)
Theorem apply_theme_unknown (m : Theme.manager) (name : string) :
  known_theme name = false ->
  let m' := fst (Theme.apply_theme m name) in
  snd (Theme.apply_theme m name) = Some (Theme.KeyError name) /\
  Theme.current_theme m' = name /\
  Theme.root_bg m' = Theme.root_bg m /\
  Theme.configured m' = Theme.configured m /\
  Theme.mapped m' = Theme.mapped m /\
  (forall key, Theme.get_color m' key = inr (Theme.KeyError name)) /\
  Theme.cycle_theme m' = (m', inr (Theme.ValueError_not_in_list name)).
Proof.
  intros Hunknown m'. subst m'.
  destruct (unknown_theme_cases name Hunknown) as [Hlookup Hindex].
  unfold Theme.apply_theme. rewrite Hlookup. cbn [fst snd Theme.current_theme Theme.root_bg
    Theme.configured Theme.mapped].
  repeat split.
  - intros key. unfold Theme.get_color. cbn [Theme.current_theme]. now rewrite Hlookup.
  - unfold Theme.cycle_theme. cbn [Theme.current_theme]. now rewrite Hindex.
Qed.

Lemma apply_theme_unknown_witness :
  snd (Theme.apply_theme (fst Theme.init) "Solarized") = Some (Theme.KeyError "Solarized").
Proof. exact (proj1 (apply_theme_unknown (fst Theme.init) "Solarized" eq_refl)). Defined.

(** ** The buttons *)

Lemma button_kind_cases (t : string) :
  t = "num" \/ t = "op" \/ t = "eq" \/ t = "func" \/
  (Theme.lookup t Button.c_map = None /\ String.eqb t "op" = false /\ String.eqb t "eq" = false).
Proof.
  unfold Button.c_map. cbn [Theme.lookup].
  destruct (String.eqb_spec "num" t) as [<-|_]; [auto|].
  destruct (String.eqb_spec "op" t) as [<-|Hop]; [auto|].
  destruct (String.eqb_spec "eq" t) as [<-|Heq]; [auto|].
  destruct (String.eqb_spec "func" t) as [<-|_]; [auto 6|].
  right; right; right; right. repeat split.
  - destruct (String.eqb_spec t "op"); congruence.
  - destruct (String.eqb_spec t "eq"); congruence.
Qed.

(** The pointer over a button and away again.  Under a theme of [THEMES],
    [on_enter] gives the button the active colour of the theme and
    [on_leave] gives it back the colours of [update_color]; these are those
    it had if it was up to date, and [update_color] changes nothing more
    when called again. *)
Theorem hover_round_trip (m : Theme.manager) (b : Button.button) :
  known_theme (Theme.current_theme m) = true ->
  exists entered updated,
    Button.on_enter m b = inl entered /\
    Theme.get_color m "active" = inl (Some (Button.bg entered)) /\
    Button.update_color m b = inl updated /\
    Button.on_leave m entered = inl updated /\
    Button.update_color m updated = inl updated.
Proof.
  intros Hknown.
  destruct m as [name rbg use conf maps]. cbn [Theme.current_theme] in Hknown.
  destruct b as [t bg fg act].
  destruct (known_theme_cases name Hknown) as [->|[->| ->]];
    destruct (button_kind_cases t) as [->|[->|[->|[->|(Hmap & Hop & Heq)]]]];
    unfold Button.on_leave, Button.on_enter, Button.update_color;
    cbn [Button.btn_type Button.bg Button.fg Button.activebackground];
    rewrite ?Hmap, ?Hop, ?Heq;
    do 2 eexists; repeat split;
    cbn [Button.btn_type Button.bg Button.fg Button.activebackground];
    rewrite ?Hmap, ?Hop, ?Heq; reflexivity.
Qed.

Lemma hover_round_trip_witness :
  exists entered updated,
    Button.on_enter (fst Theme.init)
      {| Button.btn_type := "op"; Button.bg := "#FF9800"; Button.fg := "#FFFFFF";
         Button.activebackground := "#757575" |} = inl entered /\
    Theme.get_color (fst Theme.init) "active" = inl (Some (Button.bg entered)) /\
    Button.update_color (fst Theme.init)
      {| Button.btn_type := "op"; Button.bg := "#FF9800"; Button.fg := "#FFFFFF";
         Button.activebackground := "#757575" |} = inl updated /\
    Button.on_leave (fst Theme.init) entered = inl updated /\
    Button.update_color (fst Theme.init) updated = inl updated.
Proof. exact (hover_round_trip (fst Theme.init) _ eq_refl). Defined.

(** ** Names *)


Lemma letter_cases c : Lexer.is_letter c = true -> In c letters.
Proof.
  unfold Lexer.is_letter. intros H. apply orb_prop in H.
  assert (Hc : (65 <= Lexer.code c <= 90 \/ 97 <= Lexer.code c <= 122)%N).
  { destruct H as [H|H]; apply andb_prop in H as [H1 H2];
      apply N.leb_le in H1, H2; lia. }
  assert (Hn : exists n, Lexer.code c = N.of_nat n /\
                 ((65 <= n <= 90)%nat \/ (97 <= n <= 122)%nat)).
  { exists (N.to_nat (Lexer.code c)). split; [now rewrite N2Nat.id|lia]. }
  destruct Hn as (n & Hn & Hrange). apply code_inj in Hn. subst c.
  destruct Hrange as [[H1 H2]|[H1 H2]].
  - do 65 (destruct n as [|n]; [lia|]).
    do 26 (destruct n as [|n]; [simpl; tauto|]). lia.
  - do 97 (destruct n as [|n]; [lia|]).
    do 26 (destruct n as [|n]; [simpl; tauto|]). lia.
Qed.

Lemma all_letters_every s :
  all_letters s = true -> every (fun c => In c letters) s.
Proof.
  induction s as [|c r IH]; [intros; exact I|]. cbn [all_letters every]. intros H.
  apply andb_prop in H as [Hc Hr]. split; [now apply letter_cases|auto].
Qed.

Lemma letter_not c a : In c letters -> Lexer.is_letter a = false -> c <> a.
Proof.
  intros H Ha ->. simpl in H.
  repeat destruct H as [H|H]; try (subst a; discriminate). contradiction.
Qed.

Lemma clean_expr_letters s :
  every (fun c => In c letters) s -> clean_expr s = s.
Proof.
  intros H. unfold clean_expr, glyph_times, glyph_divide, glyph_root.
  do 4 (rewrite (replace_absent _ _ _ s);
        [|eapply every_impl; [|exact H]; intros c Hc; now apply letter_not]).
  reflexivity.
Qed.

Lemma rejects_letters s :
  every (fun c => In c letters) s -> Lexer.rejects s = false.
Proof.
  induction s as [|c r IH]; [reflexivity|]. intros [Hc Hr]. simpl in Hc.
  repeat destruct Hc as [Hc|Hc]; try (subst c; exact (IH Hr)). contradiction.
Qed.

Lemma step_letter c text :
  In c letters ->
  Lexer.step (Lexer.InName text) c = Ok ([], Lexer.InName (text ++ String c "")) /\
  Lexer.step Lexer.Idle c = Ok ([], Lexer.InName (String c "")).
Proof.
  intros Hc. simpl in Hc.
  repeat destruct Hc as [Hc|Hc]; try (subst c; split; reflexivity). contradiction.
Qed.

Lemma run_name s : forall text,
  every (fun c => In c letters) s ->
  Lexer.run (Lexer.InName text) s = Lexer.flush (Lexer.InName (text ++ s)).
Proof.
  induction s as [|c r IH]; intros text H.
  - now rewrite str_app_empty.
  - destruct H as [Hc Hr]. cbn [Lexer.run].
    rewrite (proj1 (step_letter c text Hc)). cbn [bind].
    rewrite (IH _ Hr), str_app_assoc.
    change (String c "" ++ r) with (String c r).
    destruct (Lexer.flush _); reflexivity.
Qed.

Lemma tokenize_name s :
  s <> "" -> every (fun c => In c letters) s -> Lexer.is_keyword s = false ->
  Lexer.tokenize s = Ok [TName s].
Proof.
  intros Hne H Hkw. destruct s as [|c r]; [congruence|]. destruct H as [Hc Hr].
  unfold Lexer.tokenize. cbn [Lexer.run].
  rewrite (proj2 (step_letter c "" Hc)). cbn [bind].
  rewrite (run_name r _ Hr). change (String c "" ++ r) with (String c r).
  cbn [Lexer.flush]. now rewrite Hkw.
Qed.

(** A name that the environment lacks.  A text of letters (not a reserved
    word, within [max_source] characters) that is none of the names of
    [env] evaluates to "Error" in both angle modes: the lookup fails, and
    the failure is taken by [except Exception]. *)
Theorem evaluate_unknown_name (h : host) (mode : AngleMode) (name : string) :
  name <> "" ->
  all_letters name = true ->
  (String.length name <= max_source)%nat ->
  Lexer.is_keyword name = false ->
  environment mode !! name = None ->
  eval_fragment h (environment mode) (clean_expr name) = Raise TypeError /\
  evaluate h mode name = "Error".
Proof.
  intros Hne Hletters Hlen Hkw Henv.
  pose proof (all_letters_every name Hletters) as Hevery.
  assert (Hfrag : eval_fragment h (environment mode) (clean_expr name) = Raise TypeError).
  { rewrite (clean_expr_letters name Hevery). unfold eval_fragment.
    replace (max_source <? String.length name)%nat with false
      by (symmetry; apply Nat.ltb_ge, Hlen).
    rewrite (rejects_letters name Hevery), (tokenize_name name Hne Hevery Hkw).
    cbn [bind]. change (Parser.parse [TName name]) with (Ok (Name name) : res expr).
    cbn [bind eval_expr]. unfold lookup_name. now rewrite Henv. }
  split; [exact Hfrag|].
  destruct name as [|c r]; [congruence|].
  now rewrite (evaluate_raises h mode c r TypeError Hfrag).
Qed.

Lemma evaluate_unknown_name_witness : evaluate Sample.host DEG "Error" = "Error".
Proof.
  refine (proj2 (evaluate_unknown_name Sample.host DEG "Error" _ eq_refl _ eq_refl eq_refl)).
  - discriminate.
  - vm_compute. lia.
Defined.

(** ** Typing on the keyboard *)


Lemma contains_single c s :
  App.contains (String c "") s = true -> In c (list_ascii_of_string s).
Proof.
  induction s as [|d r IH]; [discriminate|]. cbn [App.contains String.prefix].
  destruct (ascii_dec c d) as [->|Hne].
  - intros _. now left.
  - cbn [orb]. intros H. right. now apply IH.
Qed.

Lemma typable_key c :
  App.contains (String c "") Keys.typing_keys = true ->
  Theme.lookup (String c "") Keys._bind_keys = Some (Keys.Click (String c "")) /\
  special (String c "") = false /\ typed (String c "") = String c "".
Proof.
  intros H. apply contains_single in H. simpl in H.
  repeat destruct H as [H|H]; try (subst c; repeat split). contradiction.
Qed.

Lemma clicked_typable s :
  typable s = true ->
  Keys.clicked (Keys.characters s) = Keys.characters s /\
  forallb (fun char => negb (special char)) (Keys.characters s) = true /\
  typed_text (Keys.characters s) = s.
Proof.
  induction s as [|c r IH]; [repeat split|]. cbn [typable]. intros H.
  apply andb_prop in H as [Hc Hr]. destruct (IH Hr) as (IH1 & IH2 & IH3).
  destruct (typable_key c Hc) as (Hkey & Hspecial & Htyped).
  unfold Keys.clicked in *. cbn [Keys.characters flat_map forallb typed_text fold_right].
  rewrite Hkey, Hspecial, Htyped. fold (typed_text (Keys.characters r)).
  rewrite IH1, IH2, IH3. repeat split.
Qed.

Lemma clicked_app a b : Keys.clicked (a ++ b) = (Keys.clicked a ++ Keys.clicked b)%list.
Proof. unfold Keys.clicked. apply flat_map_app. Qed.

(** An expression typed on the keyboard.  From a state with an empty
    expression and no result shown, the keys of a text written with
    [0123456789.+-*/^], one after the other, and then Return, leave on the
    display the result of [evaluate] on the text. *)
Theorem keyboard_entry (h : host) (lo : string -> option (string * string))
    (st : App.state) (text : string) :
  App.current_expression st = "" ->
  App.is_result_shown st = false ->
  typable text = true ->
  let st' := App.clicks h lo st (Keys.clicked (Keys.characters text ++ ["<Return>"])) in
  let result := evaluate h (App.engine_angle_mode st) text in
  App.current_expression st' = result /\ App.lbl_display st' = shown result.
Proof.
  intros Hexpr Hshown Htext st' result. subst st' result.
  destruct (clicked_typable text Htext) as (Hclicked & Hspecial & Htyped).
  rewrite clicked_app, Hclicked.
  change (Keys.clicked ["<Return>"]) with ["="].
  pose proof (run_typed h lo (Keys.characters text) st Hshown Hspecial) as Hrun.
  unfold App.clicks in *. rewrite fold_left_app, Hrun, Hexpr, Htyped.
  cbn [fold_left]. rewrite click_equals.
  change ("" ++ text) with text.
  destruct text as [|c r].
  - cbn [Keys.characters]. unfold App._calculate_result. rewrite Hexpr.
    split; [reflexivity|exact (update_display_current _)].
  - cbn [Keys.characters]. split; [reflexivity|exact (update_display_current _)].
Qed.

Lemma keyboard_entry_witness :
  App.lbl_display
    (App.clicks Sample.host (fun _ => None) App.initial
       (Keys.clicked (Keys.characters "2^3^2-12" ++ ["<Return>"]))) = "500".
Proof.
  exact (proj2 (keyboard_entry Sample.host (fun _ => None) App.initial "2^3^2-12"
                  eq_refl eq_refl eq_refl)).
Defined.
